(** * Netenomics.js: the statistical indicator and simulation layer

    A shallow embedding of the numeric routines of [src/netenomics.js]
    (SMA, RSI, Bollinger Bands, percentile, Gini coefficient, linear
    regression, Monte Carlo and GBM simulators) and the properties the
    specification states about them.

    Numbers.  A JavaScript number is modelled as an exact rational in
    canonical form ([Qc]) extended with the IEEE special values NaN and
    the two infinities, which is what division by zero produces.  Rounding
    and the sign of zero are not modelled: a sample is an exact rational,
    and [0.5] and [0.1] are 1/2 and 1/10.  Array lengths, loop counters and
    the counts a caller passes ([period], [steps], [days], [simulations])
    are natural numbers; default parameter values are noted where the
    source has them.

    Effects.  [Math.random] reads a hidden global generator: the routines
    that call it are written in a state monad over that generator.  Arrays
    are heap objects: the routines that copy and sort their argument
    ([_getPercentile], [calculateGini]) are written in a state monad over a
    store of arrays.  A call either returns or throws ([completion]).

    Builtins.  [Math.sqrt], [Math.exp] and the number-to-string conversion
    belong to the engine, not to the repository: they are the fields of the
    class [Builtins], and the properties hold for every instance.

    Further routines.  The second half of the development embeds the
    routines the specification does not speak of (the market helpers, the
    risk measures, vesting, the constant-product swap, the tax brackets,
    the second-price auction, the arbitrage detector, the base fee, the
    outlier filter and the proof-of-work simulation) and proves what the
    code itself guarantees about them.  [toFixed] is a field of the class
    [Formatting]; [Date.now] reads a clock; the mining loop, which need not
    stop, runs for a given number of rounds. *)

From Stdlib Require Import Ascii String.
From Stdlib Require Import List Arith Lia ZArith QArith Qcanon Qround Lqa Bool.
From Stdlib Require Import Permutation Sorted.
Import ListNotations.

Set Implicit Arguments.
Open Scope nat_scope.

(* ===================================================================== *)
(** ** JavaScript numbers *)
(* ===================================================================== *)

Module JSNumber.

Local Open Scope Qc_scope.

(** [Inf false] is [Infinity], [Inf true] is [-Infinity]. *)
Inductive num : Type :=
| NaN : num
| Inf (neg : bool) : num
| Fin (q : Qc) : num.

Definition int (z : Z) : num := Fin (Q2Qc (inject_Z z)).
Definition frac (a : Z) (b : positive) : num := Fin (Q2Qc (a # b)).
Definition of_nat (n : nat) : num := int (Z.of_nat n).

Definition is_neg (q : Qc) : bool :=
  match q ?= 0 with Lt => true | _ => false end.

Definition nopp (a : num) : num :=
  match a with
  | NaN => NaN
  | Inf s => Inf (negb s)
  | Fin x => Fin (- x)
  end.

Definition nadd (a b : num) : num :=
  match a, b with
  | NaN, _ | _, NaN => NaN
  | Inf s, Inf t => if Bool.eqb s t then Inf s else NaN
  | Inf s, Fin _ => Inf s
  | Fin _, Inf t => Inf t
  | Fin x, Fin y => Fin (x + y)
  end.

Definition nsub (a b : num) : num := nadd a (nopp b).

Definition nmul (a b : num) : num :=
  match a, b with
  | NaN, _ | _, NaN => NaN
  | Inf s, Inf t => Inf (xorb s t)
  | Inf s, Fin y =>
      match y ?= 0 with Eq => NaN | Lt => Inf (negb s) | Gt => Inf s end
  | Fin x, Inf t =>
      match x ?= 0 with Eq => NaN | Lt => Inf (negb t) | Gt => Inf t end
  | Fin x, Fin y => Fin (x * y)
  end.

(** Division by a zero divisor gives NaN for a zero dividend and an
    infinity of the dividend's sign otherwise. *)
Definition ndiv (a b : num) : num :=
  match a, b with
  | NaN, _ | _, NaN => NaN
  | Inf _, Inf _ => NaN
  | Inf s, Fin y => Inf (xorb s (is_neg y))
  | Fin _, Inf _ => Fin 0
  | Fin x, Fin y =>
      match y ?= 0 with
      | Eq => match x ?= 0 with
              | Eq => NaN
              | Lt => Inf true
              | Gt => Inf false
              end
      | _ => Fin (x / y)
      end
  end.

(** Comparison; [None] when an operand is NaN. *)
Definition ncompare (a b : num) : option comparison :=
  match a, b with
  | NaN, _ | _, NaN => None
  | Inf s, Inf t =>
      Some (if s then (if t then Eq else Lt) else (if t then Gt else Eq))
  | Inf s, Fin _ => Some (if s then Lt else Gt)
  | Fin _, Inf t => Some (if t then Gt else Lt)
  | Fin x, Fin y => Some (x ?= y)
  end.

Definition nlt (a b : num) : bool :=
  match ncompare a b with Some Lt => true | _ => false end.
Definition nle (a b : num) : bool :=
  match ncompare a b with Some Lt | Some Eq => true | _ => false end.
Definition ngt (a b : num) : bool := nlt b a.
Definition nge (a b : num) : bool := nle b a.
(** [a === b] on numbers. *)
Definition nseq (a b : num) : bool :=
  match ncompare a b with Some Eq => true | _ => false end.

Definition Math_abs (a : num) : num :=
  match a with
  | NaN => NaN
  | Inf _ => Inf false
  | Fin x => Fin (if is_neg x then - x else x)
  end.

Definition Math_floor (a : num) : num :=
  match a with
  | Fin x => int (Qfloor x)
  | _ => a
  end.

(** [Math.pow(x, k)] for a literal natural exponent [k]. *)
Fixpoint Math_pow (a : num) (k : nat) : num :=
  match k with
  | O => int 1
  | S O => a
  | S k' => nmul a (Math_pow a k')
  end.

Definition Math_max2 (a b : num) : num :=
  match ncompare a b with
  | None => NaN
  | Some Lt => b
  | _ => a
  end.
Definition Math_min2 (a b : num) : num :=
  match ncompare a b with
  | None => NaN
  | Some Gt => b
  | _ => a
  end.
(** [Math.max(...xs)] and [Math.min(...xs)]. *)
Definition Math_max (xs : list num) : num := fold_left Math_max2 xs (Inf true).
Definition Math_min (xs : list num) : num := fold_left Math_min2 xs (Inf false).

(** Decidable equality, for evaluation. *)
Definition num_eqb (a b : num) : bool :=
  match a, b with
  | NaN, NaN => true
  | Inf s, Inf t => Bool.eqb s t
  | Fin x, Fin y => Qc_eq_bool x y
  | _, _ => false
  end.

Fixpoint nums_eqb (l1 l2 : list num) : bool :=
  match l1, l2 with
  | [], [] => true
  | a :: l1', b :: l2' => num_eqb a b && nums_eqb l1' l2'
  | _, _ => false
  end.

Definition opt_nums_eqb (o1 o2 : option (list num)) : bool :=
  match o1, o2 with
  | Some l1, Some l2 => nums_eqb l1 l2
  | None, None => true
  | _, _ => false
  end.

(** The engine's builtins that the repository calls but does not define. *)
Class Builtins : Type := {
  Math_sqrt : num -> num;
  Math_exp : num -> num;
  Number_toString : num -> string
}.

End JSNumber.
Export JSNumber.

Declare Scope js_scope.
Delimit Scope js_scope with js.
Bind Scope js_scope with num.
Infix "+" := nadd : js_scope.
Infix "-" := nsub : js_scope.
Infix "*" := nmul : js_scope.
Infix "/" := ndiv : js_scope.
Notation "- x" := (nopp x) : js_scope.

(* ===================================================================== *)
(** ** Arrays, values and completions *)
(* ===================================================================== *)

(** [a[i]] for a loop counter [i], used as a number: an index out of range
    reads [undefined], which arithmetic coerces to NaN. *)
Definition get (a : list num) (i : nat) : num := nth i a NaN.

(** [a.slice(start, stop)] for [0 <= start <= stop]. *)
Definition slice (A : Type) (a : list A) (start stop : nat) : list A :=
  firstn (stop - start) (skipn start a).

(** A property read [a[i]] whose index is itself a number: it is defined
    when [i] is a non-negative integer below the length, and [undefined]
    ([None]) otherwise. *)
Definition element (a : list num) (i : num) : option num :=
  match i with
  | Fin q =>
      if (Qden (this q) =? 1)%positive && (0 <=? Qnum (this q))%Z
      then nth_error a (Z.to_nat (Qnum (this q)))
      else None
  | _ => None
  end.

(** ToNumber of a value that is a number or [undefined]. *)
Definition to_number (v : option num) : num :=
  match v with Some x => x | None => NaN end.


(** [Array.prototype.sort(cmp)]: [b] goes before [a] when [cmp(a, b) > 0];
    a NaN from the comparator counts as 0.  The order is that of a stable
    insertion sort; engines agree with it whenever the comparator is a
    consistent order, which [(a, b) => a - b] is on finite samples. *)
Fixpoint sort_insert (cmp : num -> num -> num) (x : num) (l : list num) : list num :=
  match l with
  | [] => [x]
  | y :: l' =>
      if ngt (cmp x y) (int 0) then y :: sort_insert cmp x l' else x :: l
  end.
Definition Array_sort (cmp : num -> num -> num) (l : list num) : list num :=
  fold_right (sort_insert cmp) [] l.

(** [(a, b) => a - b] *)
Definition ascending (a b : num) : num := (a - b)%js.

(** How a call ends: with a value or with a thrown exception. *)
Inductive error : Type :=
| TypeError (msg : string).

Inductive completion (A : Type) : Type :=
| Return (v : A)
| Throw (e : error).
Arguments Throw {A} e.

(** [arr.reduce(f)] without an initial value throws on an empty array. *)
Definition reduce1 (f : num -> num -> num) (l : list num) : completion num :=
  match l with
  | [] => Throw (TypeError "Reduce of empty array with no initial value")
  | x :: l' => Return (fold_left f l' x)
  end.

(* ===================================================================== *)
(** ** State: the global generator and the store of arrays *)
(* ===================================================================== *)

Definition State (S A : Type) : Type := S -> A * S.
Definition ret (S A : Type) (a : A) : State S A := fun s => (a, s).
Definition bind (S A B : Type) (m : State S A) (k : A -> State S B) : State S B :=
  fun s => let (a, s') := m s in k a s'.

Notation "x <- m ;; k" := (bind m (fun x => k))
  (at level 61, m at next level, right associativity).
Notation "' pat <- m ;; k" := (bind m (fun x => match x with pat => k end))
  (at level 61, pat pattern, m at next level, right associativity).

(** [for (let i = 0; i < n; i++) body], the body threading its variables. *)
Fixpoint for_loop (S A : Type) (n : nat) (body : A -> State S A) (acc : A) : State S A :=
  match n with
  | O => ret acc
  | Datatypes.S n' => a <- body acc ;; for_loop n' body a
  end.

(** The hidden generator behind [Math.random]: the sequence of numbers it
    will return and how many of them have been drawn. *)
Record generator : Type := {
  draws : nat -> Qc;
  cursor : nat
}.

Definition Math_random : State generator num :=
  fun g => (Fin (draws g (cursor g)),
            {| draws := draws g; cursor := S (cursor g) |}).

(** Arrays are objects: a value of array type is a reference into a store. *)
Definition ref : Type := nat.
Definition store : Type := list (list num).

Definition deref (r : ref) : State store (list num) :=
  fun h => (nth r h [], h).
(** [[...arr]] allocates a fresh array with the same elements. *)
Definition spread (r : ref) : State store ref :=
  fun h => (length h, h ++ [nth r h []]).
Fixpoint store_set (r : ref) (v : list num) (h : store) : store :=
  match r, h with
  | _, [] => []
  | O, _ :: h' => v :: h'
  | S r', a :: h' => a :: store_set r' v h'
  end.
(** [r.sort(cmp)] sorts in place and returns the same reference. *)
Definition sort_in_place (cmp : num -> num -> num) (r : ref) : State store ref :=
  fun h => (r, store_set r (Array_sort cmp (nth r h [])) h).

(* ===================================================================== *)
(** ** [_internal]: mean and population standard deviation *)
(* ===================================================================== *)

Module _internal.
Section WithBuiltins.
Context {B : Builtins}.
Local Open Scope js_scope.

(** [arr.reduce((a, b) => a + b, 0) / arr.length] *)
Definition avg (arr : list num) : num :=
  fold_left (fun a b => a + b) arr (int 0) / of_nat (length arr).

(** The sum of squared deviations is reduced without an initial value. *)
Definition stdDev (arr : list num) : completion num :=
  let mean := avg arr in
  match reduce1 (fun a b => a + b) (map (fun x => Math_pow (x - mean) 2) arr) with
  | Return s => Return (Math_sqrt (s / of_nat (length arr)))
  | Throw e => Throw e
  end.
End WithBuiltins.
End _internal.

(* ===================================================================== *)
(** ** [Indicators]: SMA, RSI, Bollinger Bands *)
(* ===================================================================== *)

Module Indicators.
Section WithBuiltins.
Context {B : Builtins}.
Local Open Scope js_scope.

(** [null] is [None]. *)
Definition sma (data : list num) (period : nat) : option (list num) :=
  if (length data <? period)%nat then None
  else Some (map (fun i =>
                    let window := slice data (i - period) i in
                    let sum := fold_left (fun a b => a + b) window (int 0) in
                    sum / of_nat period)
                 (seq period (length data + 1 - period))).

(** The seeding loop, [i = 1 .. period]. *)
Definition rsi_seed (data : list num) (period : nat) : num * num :=
  fold_left (fun '(gains, losses) i =>
               let diff := get data i - get data (i - 1) in
               if nge diff (int 0) then (gains + diff, losses)
               else (gains, losses - Math_abs diff))
            (seq 1 period) (int 0, int 0).

(** The smoothing loop, [i = period + 1 .. data.length - 1]. *)
Definition rsi_smooth (data : list num) (period : nat) (avgs : num * num) : num * num :=
  fold_left (fun '(avgGain, avgLoss) i =>
               let diff := get data i - get data (i - 1) in
               let currentGain := if nge diff (int 0) then diff else int 0 in
               let currentLoss := if nlt diff (int 0) then Math_abs diff else int 0 in
               ((avgGain * (of_nat period - int 1) + currentGain) / of_nat period,
                (avgLoss * (of_nat period - int 1) + currentLoss) / of_nat period))
            (seq (period + 1) (length data - (period + 1))) avgs.

(** [period] defaults to 14 in the source. *)
Definition rsi (data : list num) (period : nat) : num :=
  if (length data <=? period)%nat then int 50
  else
    let '(gains, losses) := rsi_seed data period in
    let avgGain := gains / of_nat period in
    let avgLoss := losses / of_nat period in
    let '(avgGain, avgLoss) := rsi_smooth data period (avgGain, avgLoss) in
    if nseq avgLoss (int 0) then int 100
    else
      let rs := avgGain / avgLoss in
      int 100 - (int 100 / (int 1 + rs)).


End WithBuiltins.
End Indicators.

(* ===================================================================== *)
(** ** [_getPercentile]: linear-interpolation percentile *)
(* ===================================================================== *)

(** [[...arr].sort((a, b) => a - b)]: the copy is sorted, not [arr]. *)
Definition sorted_copy (arr : ref) : State store ref :=
  copy <- spread arr ;; sort_in_place ascending copy.

(** The result is a number or [undefined] ([None]). *)
Definition _getPercentile (arr : ref) (p : num) : State store (option num) :=
  s <- sorted_copy arr ;;
  sorted <- deref s ;;
  let pos := ((of_nat (length sorted) - int 1) * p)%js in
  let base := Math_floor pos in
  let rest := (pos - base)%js in
  match element sorted (base + int 1)%js with
  | Some above =>
      ret (Some (to_number (element sorted base)
                 + rest * (above - to_number (element sorted base)))%js)
  | None => ret (element sorted base)
  end.

(* ===================================================================== *)
(** ** [Governance]: Gini coefficient *)
(* ===================================================================== *)

Module Governance.
Local Open Scope js_scope.

(** The loop [i = 1 .. n] over the sorted copy. *)
Definition gini_sums (n : nat) (sorted : list num) : num * num :=
  fold_left (fun '(sumNom, sumDen) i =>
               (sumNom + (of_nat n + int 1 - of_nat i) * get sorted (i - 1),
                sumDen + get sorted (i - 1)))
            (seq 1 n) (int 0, int 0).

Definition calculateGini (wealthArr : ref) : State store num :=
  wealth <- deref wealthArr ;;
  let n := length wealth in
  if (n <? 2)%nat then ret (int 0)
  else
    s <- sorted_copy wealthArr ;;
    sorted <- deref s ;;
    let '(sumNom, sumDen) := gini_sums n sorted in
    ret ((of_nat n + int 1 - int 2 * (sumNom / sumDen)) / of_nat n).
End Governance.

(** A call on an array that is the only object of the store. *)
Definition on_array (A : Type) (f : ref -> State store A) (arr : list num) : A :=
  fst (f O [arr]).

(* ===================================================================== *)
(** ** [Forecasting]: least-squares prediction *)
(* ===================================================================== *)

Module Forecasting.
Local Open Scope js_scope.

Record Prediction : Type := { nextValue : num; confidence : string }.

(** The loop [i = 0 .. n - 1]: sumX, sumY, sumXY, sumXX. *)
Definition regression_sums (data : list num) : num * num * num * num :=
  fold_left (fun '(sumX, sumY, sumXY, sumXX) i =>
               (sumX + of_nat i,
                sumY + get data i,
                sumXY + of_nat i * get data i,
                sumXX + of_nat i * of_nat i))
            (seq 0 (length data)) (int 0, int 0, int 0, int 0).

Definition linearPredict (data : list num) : completion Prediction :=
  let n := of_nat (length data) in
  let '(sumX, sumY, sumXY, sumXX) := regression_sums data in
  let slope := (n * sumXY - sumX * sumY) / (n * sumXX - sumX * sumX) in
  let intercept := (sumY - slope * sumX) / n in
  Return {| nextValue := slope * n + intercept;
            confidence := if ngt (Math_abs slope) (frac 1 10)
                          then "HIGH_TREND"%string else "STAGNANT"%string |}.
End Forecasting.

(* ===================================================================== *)
(** ** [MathModels] and [Stochastics]: the randomized routines *)
(* ===================================================================== *)

Module MathModels.
Section WithBuiltins.
Context {B : Builtins}.
Local Open Scope js_scope.

Record MonteCarloResult : Type := {
  averageEndPrice : num;
  maxPotential : num;
  minPotential : num;
  probabilityOfLoss : string
}.

(** One trial: [days] multiplicative shocks, one draw each. *)
Definition trial (startPrice : num) (days : nat) (volatility : num)
  : State generator num :=
  for_loop days
    (fun price =>
       u <- Math_random ;;
       let change := int 1 + ((u - frac 1 2) * int 2 * volatility) in
       ret (price * change))
    startPrice.

(** [simulations] defaults to 1000 in the source. *)
Definition runMonteCarlo (startPrice : num) (days : nat) (volatility : num)
    (simulations : nat) : State generator (completion MonteCarloResult) :=
  endPrices <- for_loop simulations
                 (fun endPrices =>
                    price <- trial startPrice days volatility ;;
                    ret (endPrices ++ [price]))
                 [] ;;
  ret (match reduce1 (fun a b => a + b) endPrices with
       | Throw e => Throw e
       | Return total =>
           Return {|
             averageEndPrice := total / of_nat simulations;
             maxPotential := Math_max endPrices;
             minPotential := Math_min endPrices;
             probabilityOfLoss :=
               (Number_toString
                  (of_nat (length (filter (fun p => nlt p startPrice) endPrices))
                   / of_nat simulations * int 100)
                ++ "%")%string
           |}
       end).
End WithBuiltins.
End MathModels.

Module Stochastics.
Section WithBuiltins.
Context {B : Builtins}.
Local Open Scope js_scope.

(** One iteration of the loop, on the pair (path, currentS). *)
Definition gbm_step (mu sigma dt : num) (st : list num * num)
  : State generator (list num * num) :=
  let '(path, currentS) := st in
  let drift := (mu - frac 1 2 * sigma * sigma) * dt in
  u <- Math_random ;;
  let diffusion := sigma * Math_sqrt dt * (u * int 2 - int 1) in
  let currentS := currentS * Math_exp (drift + diffusion) in
  ret (path ++ [currentS], currentS).

Definition gbmPath (S0 mu sigma T : num) (steps : nat) : State generator (list num) :=
  let dt := T / of_nat steps in
  ' (path, _) <- for_loop steps (gbm_step mu sigma dt) ([S0], S0) ;;
  ret path.
End WithBuiltins.
End Stochastics.

(* ===================================================================== *)
(** ** Reference quantities the properties are stated against *)
(* ===================================================================== *)

(** Least and greatest sample of a non-empty series. *)
Definition Qc_min (a b : Qc) : Qc := if Qclt_le_dec b a then b else a.
Definition Qc_max (a b : Qc) : Qc := if Qclt_le_dec a b then b else a.
Definition series_min (S : list Qc) : Qc :=
  match S with [] => Q2Qc 0 | x :: S' => fold_left Qc_min S' x end.

(** A stand-in for the engine's builtins, for evaluating the routines:
    the square root is exact on squares of rationals and rounded down to a
    multiple of the denominator's inverse elsewhere, the exponential is its
    Taylor polynomial of degree 2, and numbers print as the empty string. *)
Definition sqrt_down (a : num) : num :=
  match a with
  | NaN => NaN
  | Inf s => if s then NaN else Inf false
  | Fin q =>
      if is_neg q then NaN
      else Fin (Q2Qc (Z.sqrt (Qnum (this q) * Zpos (Qden (this q))) # Qden (this q)))
  end.
Definition exp_taylor (a : num) : num :=
  (int 1 + a + a * a / int 2)%js.
Definition evaluation_builtins : Builtins := {|
  Math_sqrt := sqrt_down;
  Math_exp := exp_taylor;
  Number_toString := fun _ => EmptyString
|}.


(** A deterministic generator: 0 first, 1/2 ever after. *)
Definition zero_then_half : generator :=
  {| draws := fun i => match i with O => Q2Qc 0 | _ => Q2Qc (1 # 2) end;
     cursor := 0 |}.

(* ===================================================================== *)
(** ** Further routines of the library *)
(* ===================================================================== *)

(** [x || d] on a number [x]: 0 and NaN are falsy. *)
Definition or_else (x d : num) : num :=
  match x with
  | NaN => d
  | Inf _ => x
  | Fin q => match (q ?= Q2Qc 0)%Qc with Eq => d | _ => x end
  end.

(** [Number.prototype.toFixed] belongs to the engine. *)
Class Formatting : Type := {
  Number_toFixed : num -> nat -> string
}.

(** [_internal.clamp]: [Math.min(Math.max(val, min), max)] *)
Definition clamp (val min max : num) : num :=
  Math_min [Math_max [val; min]; max].

(** [a.slice(-k)]: the last [k] elements; [slice(-0)] is [slice(0)], the
    whole array. *)
Definition slice_last (A : Type) (a : list A) (k : nat) : list A :=
  match k with
  | O => a
  | S _ => skipn (length a - k) a
  end.

Module Market.
Local Open Scope js_scope.

Definition getSMA (data : list num) (period : nat) : option num :=
  if (length data <? period)%nat then None
  else Some (_internal.avg (slice_last data period)).

End Market.

Module GameEconomy.
Local Open Scope js_scope.

End GameEconomy.

Module Risk.
Section WithBuiltins.
Context {B : Builtins}.
Local Open Scope js_scope.

(** The loop [i = 1 .. history.length - 1] that fills [returns]. *)
Definition relative_changes (history : list num) : list num :=
  map (fun i => (get history i - get history (i - 1)) / get history (i - 1))
      (seq 1 (length history - 1)).

(** [returns] is a local array, sorted in place; [confidence] defaults to
    0.95 in the source. *)
Definition calculateVaR (history : list num) (confidence : num) : num :=
  let returns := Array_sort ascending (relative_changes history) in
  let index := Math_floor ((int 1 - confidence) * of_nat (length returns)) in
  match element returns index with
  | Some r => or_else r (int 0)
  | None => int 0
  end.

End WithBuiltins.
End Risk.

Module Tokenomics.
Local Open Scope js_scope.

End Tokenomics.

Module Liquidity.
Section WithFormatting.
Context {F : Formatting}.
Local Open Scope js_scope.


End WithFormatting.
End Liquidity.

Module Macro.
Section WithFormatting.
Context {F : Formatting}.
Local Open Scope js_scope.

Record TaxResult : Type := { totalTax : num; effectiveRate : string }.

(** The default value of [brackets]: pairs of limit and rate. *)
Definition default_brackets : list (num * num) :=
  [(int 10000, frac 1 20); (int 50000, frac 1 10); (int 100000, frac 1 5)].

(** The loop over the brackets, on the pair (totalTax, lastLimit). *)
Definition bracket_loop (income : num) (brackets : list (num * num)) : num * num :=
  fold_left (fun '(totalTax, lastLimit) '(limit, rate) =>
               if ngt income lastLimit then
                 let taxable := Math_min [income - lastLimit; limit - lastLimit] in
                 (totalTax + taxable * rate, limit)
               else (totalTax, lastLimit))
            brackets (int 0, int 0).

Definition calculateBrackets (income : num) (brackets : list (num * num)) : TaxResult :=
  let '(totalTax, lastLimit) := bracket_loop income brackets in
  let totalTax :=
    if ngt income lastLimit then totalTax + (income - lastLimit) * frac 3 10
    else totalTax in
  {| totalTax := totalTax;
     effectiveRate := (Number_toFixed (totalTax / income * int 100) 2 ++ "%")%string |}.
End WithFormatting.
End Macro.

(** [Array.prototype.sort(cmp)] on an array of objects, as [Array_sort]. *)
Fixpoint sort_insert_by (A : Type) (cmp : A -> A -> num) (x : A) (l : list A) : list A :=
  match l with
  | [] => [x]
  | y :: l' =>
      if ngt (cmp x y) (int 0) then y :: sort_insert_by cmp x l' else x :: l
  end.
Definition Array_sort_by (A : Type) (cmp : A -> A -> num) (l : list A) : list A :=
  fold_right (sort_insert_by cmp) [] l.

Module GameTheory.
Local Open Scope js_scope.

Record Bid : Type := { user : string; amount : num }.
Record Auction : Type := { winner : string; priceToPay : num; savings : num }.

(** [bids.sort(...)] sorts the caller's array: the state is its content.
    [null] is [None]. *)
Definition calculateVickreyWinner : State (list Bid) (completion (option Auction)) :=
  fun bids =>
    if (length bids <? 2)%nat then (Return None, bids)
    else
      let sorted := Array_sort_by (fun a b => amount b - amount a) bids in
      match sorted with
      | first :: second :: _ =>
          (Return (Some {| winner := user first;
                           priceToPay := amount second;
                           savings := amount first - amount second |}),
           sorted)
      | _ => (Throw (TypeError "Cannot read properties of undefined"), sorted)
      end.
End GameTheory.

Module NetworkEconomy.
Section WithFormatting.
Context {F : Formatting}.
Local Open Scope js_scope.


End WithFormatting.
End NetworkEconomy.

Module Scarcity.
Local Open Scope js_scope.

End Scarcity.

Module Validator.
Section WithBuiltins.
Context {B : Builtins}.
Local Open Scope js_scope.

(** [sigmaThreshold] defaults to 3 in the source. *)
Definition cleanData (history : list num) (sigmaThreshold : num) : completion (list num) :=
  match reduce1 (fun a b => a + b) history with
  | Throw e => Throw e
  | Return total =>
      let mean := total / of_nat (length history) in
      match reduce1 (fun a b => a + b)
                    (map (fun x => Math_pow (x - mean) 2) history) with
      | Throw e => Throw e
      | Return squares =>
          let stdDev := Math_sqrt (squares / of_nat (length history)) in
          Return (filter (fun val => nle (Math_abs (val - mean)) (sigmaThreshold * stdDev))
                         history)
      end
  end.
End WithBuiltins.
End Validator.

(** A stand-in for [toFixed], for evaluating the routines: numbers print as
    the empty string. *)
Definition evaluation_formatting : Formatting := {|
  Number_toFixed := fun _ _ => EmptyString
|}.

(** A bid whose amount is a finite number; [a] bids at least as much as
    [b]. *)
Definition finite_bid (b : GameTheory.Bid) : Prop :=
  exists q, GameTheory.amount b = Fin q.
Definition outbids (a b : GameTheory.Bid) : Prop :=
  nle (GameTheory.amount b) (GameTheory.amount a) = true.

(** Sums the properties are stated against: the natural number [k] as a
    rational, the sum of a series, and the sum weighted by the descending
    coefficients [k, k - 1, ...]. *)
Definition Qc_of_nat (k : nat) : Qc := Q2Qc (inject_Z (Z.of_nat k)).


(* ===================================================================== *)
(** ** [Security]: the proof-of-work simulation *)
(* ===================================================================== *)

(** [Date.now]: the readings of the clock, in order. *)
Record clock : Type := {
  readings : nat -> num;
  reads : nat
}.

Definition Date_now : State clock num :=
  fun c => (readings c (reads c),
            {| readings := readings c; reads := S (reads c) |}).

(** [x | 0] and the result of [<<]: the integer modulo 2^32, read as signed. *)
Definition to_int32 (z : Z) : Z := ((z + 2 ^ 31) mod 2 ^ 32 - 2 ^ 31)%Z.

(** [n.toString(16)] on an integer [n >= 0]: the digits in base 16, the
    most significant first, [0] printing as ["0"]. *)
Definition hex_digit (d : Z) : Ascii.ascii :=
  match d with
  | 0%Z => "0" | 1%Z => "1" | 2%Z => "2" | 3%Z => "3"
  | 4%Z => "4" | 5%Z => "5" | 6%Z => "6" | 7%Z => "7"
  | 8%Z => "8" | 9%Z => "9" | 10%Z => "a" | 11%Z => "b"
  | 12%Z => "c" | 13%Z => "d" | 14%Z => "e" | _ => "f"
  end%char.

Fixpoint hex_digits (fuel : nat) (n : Z) (rest : string) : string :=
  match fuel with
  | O => rest
  | S fuel' =>
      if (n <? 16)%Z then String (hex_digit n) rest
      else hex_digits fuel' (n / 16) (String (hex_digit (n mod 16)) rest)
  end.

Definition toString16 (n : Z) : string :=
  hex_digits (S (Z.to_nat (Z.log2 n))) n EmptyString.

(** ['0'.repeat(k)] *)
Fixpoint String_repeat (c : Ascii.ascii) (k : nat) : string :=
  match k with
  | O => EmptyString
  | S k' => String c (String_repeat c k')
  end.

Module Security.
Section WithBuiltins.
Context {B : Builtins}.

Record Mined : Type := {
  nonce : nat;
  hash : string;
  timeTaken : string
}.

(** The loop of [getHash] over the code units of the string (the strings
    here have code units below 256):
    [h = ((h << 5) - h) + str.charCodeAt(i); h |= 0]. *)
Fixpoint getHash_loop (str : string) (h : Z) : Z :=
  match str with
  | EmptyString => h
  | String c str' =>
      getHash_loop str'
        (to_int32 (to_int32 (Z.shiftl h 5) - h
                   + Z.of_nat (Ascii.nat_of_ascii c)))
  end.

Definition getHash (str : string) : string :=
  toString16 (Z.abs (getHash_loop str 0)).

(** [while (!hash.startsWith(target)) { nonce++; hash = getHash(data + nonce); }]
    run for at most [fuel] rounds; [None] when the rounds are used up with
    the test still failing. *)
Fixpoint mining_loop (fuel : nat) (data target : string)
    (nonce : nat) (hash : string) {struct fuel} : option (nat * string) :=
  if prefix target hash then Some (nonce, hash)
  else match fuel with
       | O => None
       | S fuel' =>
           mining_loop fuel' data target (S nonce)
             (getHash (data ++ Number_toString (of_nat (S nonce))))
       end.

Definition simulateMining (fuel : nat) (data : string) (difficulty : nat)
    : State clock (option Mined) :=
  let target := String_repeat "0"%char difficulty in
  start <- Date_now ;;
  match mining_loop fuel data target 0 EmptyString with
  | None => ret None
  | Some (nonce, hash) =>
      finish <- Date_now ;;
      ret (Some {| nonce := nonce;
                   hash := hash;
                   timeTaken := (Number_toString (finish - start)%js ++ "ms")%string |})
  end.
End WithBuiltins.
End Security.

(** A clock for evaluating the routines: the k-th reading is k. *)
Definition counting_clock : clock :=
  {| readings := of_nat; reads := 0 |}.

(* ===================================================================== *)
(** ** Arithmetic of [num] *)
(* ===================================================================== *)

Lemma this_Q2Qc (q : Q) : (this (Q2Qc q) == q)%Q.
Proof. apply Qred_correct. Qed.

(** Goals over [Qc] are moved to [Q], where [lra] and [nra] work. *)
Ltac qc2q :=
  unfold Qcle, Qclt, Qcminus, Qcdiv, Qcinv, Qcplus, Qcopp, Qcmult in *;
  repeat match goal with |- @eq Qc _ _ => apply Qc_is_canon end;
  rewrite ?this_Q2Qc in *; unfold inject_Z in *.

Lemma num_eqb_eq (a b : num) : num_eqb a b = true -> a = b.
Proof.
  destruct a as [|s|x], b as [|t|y]; simpl; try discriminate; trivial.
  - intros H. apply Bool.eqb_prop in H. now subst.
  - intros H. apply Qc_eq_bool_correct in H. now subst.
Qed.

Lemma nums_eqb_eq (l1 l2 : list num) : nums_eqb l1 l2 = true -> l1 = l2.
Proof.
  revert l2. induction l1 as [|a l1 IH]; intros [|b l2]; simpl; try discriminate; trivial.
  intros H. apply andb_true_iff in H. destruct H as [Hab Hl].
  apply num_eqb_eq in Hab. apply IH in Hl. now subst.
Qed.

Lemma opt_nums_eqb_eq (o1 o2 : option (list num)) :
  opt_nums_eqb o1 o2 = true -> o1 = o2.
Proof.
  destruct o1 as [l1|], o2 as [l2|]; simpl; try discriminate; trivial.
  intros H. apply nums_eqb_eq in H. now subst.
Qed.

(** Closed equations between numbers and between arrays, by evaluation. *)
Ltac num_eval :=
  lazymatch goal with
  | |- @eq num _ _ => apply num_eqb_eq; vm_compute; reflexivity
  | |- @eq (list num) _ _ => apply nums_eqb_eq; vm_compute; reflexivity
  | |- @eq (option (list num)) _ _ => apply opt_nums_eqb_eq; vm_compute; reflexivity
  end.


Lemma nmul_comm (a b : num) : (a * b)%js = (b * a)%js.
Proof.
  destruct a as [|s|x], b as [|t|y]; simpl; trivial.
  - now rewrite xorb_comm.
  - f_equal. apply Qcmult_comm.
Qed.

Lemma nle_Fin (a b : Qc) : nle (Fin a) (Fin b) = true <-> (a <= b)%Qc.
Proof.
  unfold nle. simpl. rewrite Qcle_alt.
  destruct (a ?= b)%Qc; split; congruence.
Qed.

(* ===================================================================== *)
(** ** SMA *)
(* ===================================================================== *)

Section SmaProperties.
Import Indicators _internal.

Lemma slice_length (A : Type) (a : list A) (start stop : nat) :
  stop <= length a -> length (slice a start stop) = stop - start.
Proof.
  intros H. unfold slice. rewrite length_firstn, length_skipn. lia.
Qed.

Lemma sma_some (data : list num) (period : nat) :
  period <= length data ->
  sma data period =
    Some (map (fun i => avg (slice data (i - period) i))
              (seq period (length data + 1 - period))).
Proof.
  intros H. unfold sma.
  destruct (Nat.ltb_spec (length data) period) as [Hlt|_]; [lia|].
  f_equal. apply map_ext_in. intros i Hi. apply in_seq in Hi.
  unfold avg. rewrite slice_length by lia.
  replace (i - (i - period)) with period by lia. reflexivity.
Qed.

(** C2. For [len(S) >= period], [sma(S, period)] has exactly
    [len(S) - period + 1] elements and its j-th element is the arithmetic
    mean ([avg]) of the window [S[j .. j+period-1]]; for
    [len(S) < period] it returns the sentinel [null] and raises nothing;
    and [sma([1,2,3,4,5], 3) = [2, 3, 4]]. *)
Theorem sma_window_means (S : list num) (period : nat) :
  (period <= length S ->
     exists out,
       sma S period = Some out
       /\ length out = length S - period + 1
       /\ forall j, j < length out ->
            nth j out NaN = avg (slice S j (j + period)))
  /\ (length S < period -> sma S period = None)
  /\ sma (map int [1; 2; 3; 4; 5]%Z) 3 = Some (map int [2; 3; 4]%Z).
Proof.
  split; [|split].
  - intros H. eexists. split; [apply sma_some; exact H|]. split.
    + rewrite length_map, length_seq. lia.
    + intros j Hj. rewrite length_map, length_seq in Hj.
      set (f := fun i => avg (slice S (i - period) i)).
      rewrite (nth_indep _ NaN (f 0)) by (rewrite length_map, length_seq; lia).
      rewrite map_nth, seq_nth by lia. unfold f.
      replace (period + j - period) with j by lia.
      now rewrite (Nat.add_comm period j).
  - intros H. unfold sma.
    destruct (Nat.ltb_spec (length S) period) as [_|Hge]; [reflexivity|lia].
  - num_eval.
Qed.

Lemma sma_window_means_witness :
  exists out,
    sma (map int [4; 8; 6]%Z) 2 = Some out
    /\ length out = 3 - 2 + 1
    /\ forall j, j < length out ->
         nth j out NaN = avg (slice (map int [4; 8; 6]%Z) j (j + 2)).
Proof.
  destruct (sma_window_means (map int [4; 8; 6]%Z) 2) as [H _].
  apply H. simpl. lia.
Defined.

(** A series exactly one window long has a single output, its mean. *)
Lemma sma_single_window (S : list num) :
  sma S (length S) = Some [avg S].
Proof.
  rewrite sma_some by lia.
  replace (length S + 1 - length S) with 1 by lia. simpl.
  rewrite Nat.sub_diag. unfold slice. rewrite Nat.sub_0_r. simpl.
  now rewrite firstn_all.
Qed.
End SmaProperties.

(* ===================================================================== *)
(** ** RSI *)
(* ===================================================================== *)

Section RsiProperties.
Import Indicators.

Lemma rsi_insufficient_history (S : list num) (period : nat) :
  length S <= period -> rsi S period = int 50.
Proof.
  intros H. unfold rsi.
  destruct (Nat.leb_spec (length S) period) as [_|Hgt]; [reflexivity|lia].
Qed.

(** The seeding loop accumulates falls with a negative sign:
    after [3, 1, 2] it holds gains 1 and losses -2. *)
Lemma rsi_seed_negative_losses :
  rsi_seed (map int [3; 1; 2]%Z) 2 = (int 1, int (-2)).
Proof.
  assert (E : forall a b c d : num, a = c -> b = d -> (a, b) = (c, d))
    by (intros; subst; reflexivity).
  apply E; num_eval.
Qed.

(** The three cases of the result. *)
Lemma rsi_cases (S : list num) (period : nat) :
  (length S <= period /\ rsi S period = int 50)
  \/ (period < length S
      /\ let avgs := rsi_smooth S period
                       ((fst (rsi_seed S period) / of_nat period)%js,
                        (snd (rsi_seed S period) / of_nat period)%js) in
         (nseq (snd avgs) (int 0) = true /\ rsi S period = int 100)
         \/ (nseq (snd avgs) (int 0) = false
             /\ rsi S period
                = (int 100 - int 100 / (int 1 + fst avgs / snd avgs))%js)).
Proof.
  unfold rsi. destruct (Nat.leb_spec (length S) period) as [Hle|Hgt].
  - left. now split.
  - right. split; [assumption|].
    destruct (rsi_seed S period) as [gains losses]. cbn [fst snd].
    destruct (rsi_smooth S period _) as [avgGain avgLoss]. cbn [fst snd].
    destruct (nseq avgLoss (int 0)); [left|right]; now split.
Qed.

Lemma get_finite (S : list Qc) (i : nat) :
  i < length S -> get (map Fin S) i = Fin (nth i S (Q2Qc 0)).
Proof.
  intros H. unfold get.
  rewrite (nth_indep _ NaN (Fin (Q2Qc 0))) by now rewrite length_map.
  apply map_nth.
Qed.

Lemma rsi_seed_fold_sign (S : list Qc) (idxs : list nat) (g l : Qc) :
  (forall i, In i idxs -> 1 <= i < length S) ->
  (Q2Qc 0 <= g)%Qc -> (l <= Q2Qc 0)%Qc ->
  exists gains losses,
    fold_left (fun '(gains, losses) i =>
                 let diff := (get (map Fin S) i - get (map Fin S) (i - 1))%js in
                 if nge diff (int 0) then ((gains + diff)%js, losses)
                 else (gains, (losses - Math_abs diff)%js))
              idxs (Fin g, Fin l)
    = (Fin gains, Fin losses)
    /\ (Q2Qc 0 <= gains)%Qc /\ (losses <= Q2Qc 0)%Qc.
Proof.
  revert g l. induction idxs as [|i idxs IH]; intros g l Hidx Hg Hl.
  - exists g, l. now repeat split.
  - cbn [fold_left].
    rewrite !get_finite by (specialize (Hidx i (or_introl eq_refl)); lia).
    set (a := nth i S (Q2Qc 0)). set (b := nth (i - 1) S (Q2Qc 0)).
    change (Fin a - Fin b)%js with (Fin (a - b)).
    assert (Hrest : forall j, In j idxs -> 1 <= j < length S)
      by (intros j Hj; apply Hidx; now right).
    destruct (nge (Fin (a - b)) (int 0)) eqn:E.
    + apply IH; [assumption| |assumption].
      apply nle_Fin in E.
      change (Q2Qc 0 <= g + (a - b))%Qc. clear -Hg E. qc2q. lra.
    + apply IH; [assumption|assumption|].
      assert (Hneg : (a - b < Q2Qc 0)%Qc).
      { apply Qcnot_le_lt. intros Hle. apply nle_Fin in Hle.
        unfold nge in E. change (int 0) with (Fin (Q2Qc 0)) in E. congruence. }
      unfold Math_abs, is_neg.
      rewrite (proj1 (Qclt_alt (a - b) (Q2Qc 0)) Hneg).
      change (l - - (a - b) <= Q2Qc 0)%Qc. clear -Hl Hneg. qc2q. lra.
Qed.

(** After the seeding loop the accumulated loss of a finite series is
    never positive: every fall is subtracted. *)
Lemma rsi_seed_sign (S : list Qc) (period : nat) :
  period < length S ->
  exists gains losses,
    rsi_seed (map Fin S) period = (Fin gains, Fin losses)
    /\ (Q2Qc 0 <= gains)%Qc /\ (losses <= Q2Qc 0)%Qc.
Proof.
  intros Hlen. unfold rsi_seed.
  apply (@rsi_seed_fold_sign S (seq 1 period) (Q2Qc 0) (Q2Qc 0)).
  - intros i Hi. apply in_seq in Hi. lia.
  - apply Qcle_refl.
  - apply Qcle_refl.
Qed.

(** C1. [rsi] does not stay in [0, 100]: on [3, 1, 2] with period 2 the
    seeding loop leaves a negative average loss (-1, against an average
    gain of 1/2), the zero-loss guard does not fire, and the result is
    [100 - 100 / (1 - 1/2) = -100], which is below 0. *)
Theorem rsi_out_of_range :
  rsi (map int [3; 1; 2]%Z) 2 = int (-100)
  /\ nle (int 0) (rsi (map int [3; 1; 2]%Z) 2) = false.
Proof.
  split; [num_eval|]. vm_compute. reflexivity.
Qed.

(** On the 15-sample series of the specification's RSI scenario, with
    period 14, the same sign error gives 9200/57 (about 161.4), above 100. *)
Lemma rsi_reference_scenario :
  let S := map (fun z => frac z 100)
               [4400; 4434; 4409; 4415; 4361; 4433; 4483; 4510; 4542; 4584;
                4608; 4589; 4603; 4561; 4628]%Z in
  rsi S 14 = frac 9200 57 /\ nle (rsi S 14) (int 100) = false.
Proof.
  split; [num_eval|]. vm_compute. reflexivity.
Qed.
End RsiProperties.

(* ===================================================================== *)
(** ** Sorting finite samples *)
(* ===================================================================== *)

Section SortProperties.
Local Open Scope Qc_scope.

Lemma ascending_gt_0 (x y : Qc) :
  ngt (ascending (Fin x) (Fin y)) (int 0) = true <-> y < x.
Proof.
  unfold ngt, nlt, ascending. simpl.
  change (Q2Qc (inject_Z 0)) with 0.
  rewrite Qclt_minus_iff, Qclt_alt.
  destruct (0 ?= x + - y); split; congruence.
Qed.

Lemma sort_insert_finite (x : Qc) (s : list Qc) :
  StronglySorted Qcle s ->
  exists s',
    sort_insert ascending (Fin x) (map Fin s) = map Fin s'
    /\ Permutation (x :: s) s'
    /\ StronglySorted Qcle s'.
Proof.
  induction 1 as [|y s Hs IH Hy].
  - exists [x]. repeat split; auto. constructor; constructor.
  - simpl. change (Fin (x + - y)) with (ascending (Fin x) (Fin y)).
    destruct (ngt (ascending (Fin x) (Fin y)) (int 0)) eqn:E.
    + apply ascending_gt_0 in E.
      destruct IH as (s' & Heq & Hperm & Hsorted).
      exists (y :: s'). rewrite Heq. split; [reflexivity|split].
      * rewrite perm_swap. now constructor.
      * constructor; [assumption|].
        apply (Permutation_Forall Hperm). constructor; [|assumption].
        now apply Qclt_le_weak.
    + assert (Hxy : x <= y).
      { apply Qcnot_lt_le. intros Hlt. apply ascending_gt_0 in Hlt. congruence. }
      exists (x :: y :: s). split; [reflexivity|split]; [apply Permutation_refl|].
      constructor; [now constructor|].
      constructor; [assumption|].
      eapply Forall_impl; [|exact Hy].
      intros z Hz. eapply Qcle_trans; eassumption.
Qed.

(** Sorting finite samples ascending gives the sorted permutation. *)
Lemma Array_sort_finite (w : list Qc) :
  exists s,
    Array_sort ascending (map Fin w) = map Fin s
    /\ Permutation w s
    /\ StronglySorted Qcle s.
Proof.
  induction w as [|x w IH].
  - exists []. repeat split; constructor.
  - destruct IH as (s & Heq & Hperm & Hsorted).
    destruct (sort_insert_finite x Hsorted) as (s' & Heq' & Hperm' & Hsorted').
    exists s'. simpl. rewrite Heq. split; [assumption|split]; [|assumption].
    rewrite <- Hperm'. now constructor.
Qed.

Lemma sorted_permutation_unique (l1 l2 : list Qc) :
  StronglySorted Qcle l1 -> StronglySorted Qcle l2 ->
  Permutation l1 l2 -> l1 = l2.
Proof.
  intros H1. revert l2.
  induction H1 as [|a l1 Hs1 IH Ha]; intros l2 H2 Hperm.
  - apply Permutation_nil in Hperm. now subst.
  - destruct H2 as [|b l2 Hs2 Hb].
    + apply Permutation_sym, Permutation_nil in Hperm. discriminate.
    + assert (Hab : a = b).
      { apply Qcle_antisym.
        - assert (Hin : In b (a :: l1))
            by (eapply Permutation_in; [apply Permutation_sym; eassumption|now left]).
          destruct Hin as [->|Hin]; [apply Qcle_refl|].
          rewrite Forall_forall in Ha. now apply Ha.
        - assert (Hin : In a (b :: l2))
            by (eapply Permutation_in; [eassumption|now left]).
          destruct Hin as [->|Hin]; [apply Qcle_refl|].
          rewrite Forall_forall in Hb. now apply Hb. }
      subst b. f_equal. apply IH; [assumption|].
      eapply Permutation_cons_inv; eassumption.
Qed.

Lemma Array_sort_permutation (w w' : list Qc) :
  Permutation w w' ->
  Array_sort ascending (map Fin w') = Array_sort ascending (map Fin w).
Proof.
  intros Hperm.
  destruct (Array_sort_finite w) as (s & -> & Hp & Hs).
  destruct (Array_sort_finite w') as (s' & -> & Hp' & Hs').
  f_equal. apply sorted_permutation_unique; auto.
  now rewrite <- Hp', <- Hperm, Hp.
Qed.

End SortProperties.

(* ===================================================================== *)
(** ** The store *)
(* ===================================================================== *)

Section StoreProperties.

Lemma store_set_fresh (h : store) (a v : list num) :
  store_set (length h) v (h ++ [a]) = h ++ [v].
Proof. induction h as [|b h IH]; simpl; congruence. Qed.

Lemma nth_error_nth_store (h : store) (r : ref) (w : list num) :
  nth_error h r = Some w -> nth r h [] = w.
Proof. intros H. now apply nth_error_nth. Qed.

(** [[...arr].sort(cmp)] allocates one array, the sorted copy, and
    leaves every existing array as it was. *)
Lemma sorted_copy_run (h : store) (arr : ref) :
  sorted_copy arr h
  = (length h, h ++ [Array_sort ascending (nth arr h [])]).
Proof.
  unfold sorted_copy, bind, spread, sort_in_place.
  rewrite app_nth2, Nat.sub_diag by lia. simpl.
  now rewrite store_set_fresh.
Qed.

Lemma deref_fresh (h : store) (a : list num) :
  deref (length h) (h ++ [a]) = (a, h ++ [a]).
Proof.
  unfold deref. now rewrite app_nth2, Nat.sub_diag by lia.
Qed.
End StoreProperties.

(* ===================================================================== *)
(** ** Gini coefficient *)
(* ===================================================================== *)

Section GiniProperties.
Import Governance.

(** What a call computes and what it does to the store. *)
Lemma calculateGini_run (h : store) (wealthArr : ref) :
  let wealth := nth wealthArr h [] in
  let n := length wealth in
  let sorted := Array_sort ascending wealth in
  calculateGini wealthArr h
  = if n <? 2 then (int 0, h)
    else ((of_nat n + int 1
           - int 2 * (fst (gini_sums n sorted) / snd (gini_sums n sorted)))
          / of_nat n,
          h ++ [sorted])%js.
Proof.
  intros wealth n sorted.
  unfold calculateGini, bind at 1. unfold deref at 1.
  fold wealth. fold n.
  destruct (n <? 2); [reflexivity|].
  unfold bind. rewrite sorted_copy_run, deref_fresh. fold wealth sorted.
  destruct (gini_sums n sorted) as [sumNom sumDen]. reflexivity.
Qed.

Lemma calculateGini_short (h : store) (wealthArr : ref) :
  length (nth wealthArr h []) < 2 ->
  calculateGini wealthArr h = (int 0, h).
Proof.
  intros H. rewrite calculateGini_run.
  destruct (Nat.ltb_spec (length (nth wealthArr h [])) 2); [reflexivity|lia].
Qed.

Lemma sort_insert_zero (k : nat) :
  sort_insert ascending (int 0) (repeat (int 0) k) = repeat (int 0) (S k).
Proof. destruct k; reflexivity. Qed.

Lemma Array_sort_zeros (n : nat) :
  Array_sort ascending (repeat (int 0) n) = repeat (int 0) n.
Proof.
  induction n as [|n IH]; [reflexivity|].
  change (Array_sort ascending (repeat (int 0) (S n)))
    with (sort_insert ascending (int 0) (Array_sort ascending (repeat (int 0) n))).
  rewrite IH. apply sort_insert_zero.
Qed.

Lemma fold_left_fixed (A B : Type) (f : A -> B -> A) (l : list B) (a : A) :
  (forall b, In b l -> f a b = a) -> fold_left f l a = a.
Proof.
  induction l as [|b l IH]; intros H; [reflexivity|].
  simpl. rewrite (H b) by now left.
  apply IH. intros c Hc. apply H. now right.
Qed.

Lemma gini_sums_zeros (n : nat) :
  gini_sums n (repeat (int 0) n) = (int 0, int 0).
Proof.
  unfold gini_sums. apply fold_left_fixed.
  intros i Hi. apply in_seq in Hi.
  assert (E : get (repeat (int 0) n) (i - 1) = int 0).
  { unfold get.
    rewrite (nth_indep _ NaN (int 0)) by (rewrite repeat_length; lia).
    apply nth_repeat. }
  rewrite E. f_equal.
  unfold of_nat, int, nsub, nadd, nmul, nopp. f_equal.
  rewrite Qcmult_0_r. apply Qcplus_0_l.
Qed.

(** C3. The zero-sum case is not guarded: for an array of two or more
    zeros both sums are 0 and [calculateGini] returns [0 / 0]-derived
    NaN, not 0.  (For fewer than two entries it returns 0, see
    [calculateGini_short].) *)
Theorem calculateGini_zero_wealth (n : nat) (h : store) (wealthArr : ref) :
  2 <= n ->
  nth_error h wealthArr = Some (repeat (int 0) n) ->
  fst (calculateGini wealthArr h) = NaN.
Proof.
  intros Hn Hw. apply nth_error_nth_store in Hw.
  rewrite calculateGini_run, Hw, repeat_length.
  destruct (Nat.ltb_spec n 2); [lia|].
  rewrite Array_sort_zeros, gini_sums_zeros. reflexivity.
Qed.

Lemma calculateGini_zero_wealth_witness :
  fst (calculateGini 0 [[int 0; int 0]]) = NaN.
Proof.
  apply (@calculateGini_zero_wealth 2 [[int 0; int 0]] 0); [lia|reflexivity].
Defined.

(** C9. [calculateGini] is permutation-invariant on finite wealth: two
    arrays that are permutations of each other give the same coefficient;
    and the call leaves its argument, like every array already in the
    store, as it was: only the sorted copy is new. *)
Theorem calculateGini_permutation_invariant
    (w w' : list Qc) (h h' : store) (wealthArr wealthArr' : ref) :
  Permutation w w' ->
  nth_error h wealthArr = Some (map Fin w) ->
  nth_error h' wealthArr' = Some (map Fin w') ->
  fst (calculateGini wealthArr' h') = fst (calculateGini wealthArr h)
  /\ nth_error (snd (calculateGini wealthArr h)) wealthArr = Some (map Fin w)
  /\ forall r, r < length h ->
       nth_error (snd (calculateGini wealthArr h)) r = nth_error h r.
Proof.
  intros Hperm Hw Hw'.
  assert (Hkeep : forall r, r < length h ->
            nth_error (snd (calculateGini wealthArr h)) r = nth_error h r).
  { intros r Hr. rewrite calculateGini_run.
    destruct (_ <? 2); simpl; [reflexivity|].
    now rewrite nth_error_app1. }
  split; [|split].
  - rewrite !calculateGini_run.
    rewrite (nth_error_nth_store _ _ Hw), (nth_error_nth_store _ _ Hw').
    rewrite !length_map, <- (Permutation_length Hperm).
    rewrite (Array_sort_permutation Hperm).
    destruct (length w <? 2); reflexivity.
  - rewrite Hkeep; [assumption|].
    apply nth_error_Some. congruence.
  - exact Hkeep.
Qed.

Lemma calculateGini_permutation_invariant_witness :
  fst (calculateGini 1 [[]; map Fin [Q2Qc 3; Q2Qc 1; Q2Qc 2]])
  = fst (calculateGini 0 [map Fin [Q2Qc 1; Q2Qc 2; Q2Qc 3]])
  /\ nth_error (snd (calculateGini 0 [map Fin [Q2Qc 1; Q2Qc 2; Q2Qc 3]])) 0
     = Some (map Fin [Q2Qc 1; Q2Qc 2; Q2Qc 3])
  /\ forall r, r < 1 ->
       nth_error (snd (calculateGini 0 [map Fin [Q2Qc 1; Q2Qc 2; Q2Qc 3]])) r
       = nth_error [map Fin [Q2Qc 1; Q2Qc 2; Q2Qc 3]] r.
Proof.
  apply (@calculateGini_permutation_invariant
           [Q2Qc 1; Q2Qc 2; Q2Qc 3] [Q2Qc 3; Q2Qc 1; Q2Qc 2]).
  - apply Permutation_sym.
    apply (Permutation_cons_app [Q2Qc 1; Q2Qc 2] [] (Q2Qc 3)).
    apply Permutation_refl.
  - reflexivity.
  - reflexivity.
Defined.
End GiniProperties.

(* ===================================================================== *)
(** ** Linear regression *)
(* ===================================================================== *)

Section ForecastingProperties.
Import Forecasting.
Local Open Scope js_scope.

Lemma ndiv_zero_by_zero (a b : Qc) :
  a = Q2Qc 0 -> b = Q2Qc 0 -> Fin a / Fin b = NaN.
Proof. intros -> ->. reflexivity. Qed.

(** With a single point the slope is [0 / 0]. *)
Lemma slope_single_point (x : num) :
  (of_nat 1 * (int 0 + of_nat 0 * x) - (int 0 + of_nat 0) * (int 0 + x))
  / (of_nat 1 * (int 0 + of_nat 0 * of_nat 0)
     - (int 0 + of_nat 0) * (int 0 + of_nat 0))
  = NaN.
Proof.
  destruct x as [|s|q]; [reflexivity|destruct s; reflexivity|].
  unfold of_nat, int, nsub, nadd, nmul, nopp.
  apply ndiv_zero_by_zero; [|apply Qc_is_canon; reflexivity].
  change (Q2Qc (inject_Z (Z.of_nat 0))) with (Q2Qc 0).
  change (Q2Qc (inject_Z 0)) with (Q2Qc 0).
  change (Q2Qc (inject_Z (Z.of_nat 1))) with (Q2Qc 1).
  ring.
Qed.

(** C4, as the code has it. Nothing in [linearPredict] raises: for a
    series of fewer than 2 points the slope is [0 / 0] and the call
    returns [{ nextValue: NaN, confidence: "STAGNANT" }]. *)
Theorem linearPredict_few_points (data : list num) :
  length data < 2 ->
  linearPredict data
  = Return {| nextValue := NaN; confidence := "STAGNANT"%string |}.
Proof.
  intros H. destruct data as [|x [|y data]]; [reflexivity| |simpl in H; lia].
  unfold linearPredict, regression_sums.
  cbn [length seq fold_left get nth].
  rewrite slope_single_point. destruct x as [|s|q]; reflexivity.
Qed.

Lemma linearPredict_few_points_witness :
  linearPredict []
  = Return {| nextValue := NaN; confidence := "STAGNANT"%string |}.
Proof.
  apply (linearPredict_few_points []). simpl. lia.
Defined.

(** C4, as stated, fails: [linearPredict([5])] returns a record, it does
    not end with an exception. *)
Lemma linearPredict_single_point_no_error :
  linearPredict [int 5]
  = Return {| nextValue := NaN; confidence := "STAGNANT"%string |}
  /\ ~ (exists e, linearPredict [int 5] = Throw e).
Proof.
  split; [reflexivity|]. intros [e He]. discriminate He.
Qed.

(** On a perfectly linear series the prediction continues the line. *)
Lemma linearPredict_linear_series :
  linearPredict (map int [1; 3; 5; 7]%Z)
  = Return {| nextValue := int 9; confidence := "HIGH_TREND"%string |}.
Proof.
  assert (E : forall a b s, a = b ->
              Return {| nextValue := a; confidence := s |}
              = Return {| nextValue := b; confidence := s |})
    by (intros; subst; reflexivity).
  transitivity
    (Return {| nextValue :=
                 match linearPredict (map int [1; 3; 5; 7]%Z) with
                 | Return r => nextValue r
                 | Throw _ => NaN
                 end;
               confidence := "HIGH_TREND"%string |}).
  - vm_compute. reflexivity.
  - apply E. num_eval.
Qed.
End ForecastingProperties.

(* ===================================================================== *)
(** ** Percentile *)
(* ===================================================================== *)

Section PercentileProperties.
Local Open Scope js_scope.

Lemma this_int (z : Z) : this (Q2Qc (inject_Z z)) = inject_Z z.
Proof.
  change (this (Q2Qc (inject_Z z))) with (Qred (inject_Z z)).
  apply Qred_identity. simpl. apply Z.gcd_1_r.
Qed.

Lemma element_of_nat (a : list num) (k : nat) :
  element a (of_nat k) = nth_error a k.
Proof.
  unfold element, of_nat, int. rewrite this_int. simpl.
  destruct (Z.leb_spec 0 (Z.of_nat k)); [|lia].
  now rewrite Nat2Z.id.
Qed.


Lemma of_nat_succ (k : nat) : of_nat k + int 1 = of_nat (S k).
Proof.
  unfold of_nat, int, nadd. f_equal. apply Qc_is_canon.
  unfold Qcplus. rewrite !this_Q2Qc, Nat2Z.inj_succ, <- Z.add_1_r.
  now rewrite inject_Z_plus.
Qed.

Lemma of_nat_pred (k : nat) : of_nat (S k) - int 1 = of_nat k.
Proof.
  rewrite <- of_nat_succ. unfold of_nat, int, nsub, nadd, nopp. f_equal.
  ring.
Qed.

(** What a call computes: the store only gains the sorted copy. *)
Lemma _getPercentile_run (h : store) (arr : ref) (p : num) :
  let sorted := Array_sort ascending (nth arr h []) in
  let pos := (of_nat (length sorted) - int 1) * p in
  let base := Math_floor pos in
  let rest := pos - base in
  fst (_getPercentile arr p h)
  = match element sorted (base + int 1) with
    | Some above =>
        Some (to_number (element sorted base)
              + rest * (above - to_number (element sorted base)))
    | None => element sorted base
    end.
Proof.
  intros sorted pos base rest.
  unfold _getPercentile, bind.
  rewrite sorted_copy_run, deref_fresh.
  fold sorted. fold pos. fold base. fold rest.
  destruct (element sorted (base + int 1)); reflexivity.
Qed.

(** C10. On a single-element series [[x]] the percentile is exactly [x]
    for every [p] in [0, 1]: the rank is 0, [sorted[1]] is undefined, and
    the call returns [sorted[0]] without interpolating. *)
Theorem percentile_single_element (x : num) (p : Qc) (h : store) (arr : ref) :
  (Q2Qc 0 <= p)%Qc -> (p <= Q2Qc 1)%Qc ->
  nth_error h arr = Some [x] ->
  fst (_getPercentile arr (Fin p) h) = Some x
  /\ element [x] (Math_floor ((of_nat 1 - int 1) * Fin p) + int 1) = None.
Proof.
  intros _ _ Harr. apply nth_error_nth_store in Harr.
  assert (Hpos : (of_nat 1 - int 1) * Fin p = int 0).
  { change (of_nat 1) with (of_nat (S 0)). rewrite of_nat_pred.
    unfold of_nat, int, nmul. f_equal. apply Qcmult_0_l. }
  rewrite _getPercentile_run, Harr.
  change (Array_sort ascending [x]) with [x].
  change (length [x]) with 1.
  rewrite Hpos. split; reflexivity.
Qed.

Lemma percentile_single_element_witness :
  fst (_getPercentile 0 (frac 3 10) [[int 42]]) = Some (int 42)
  /\ element [int 42] (Math_floor ((of_nat 1 - int 1) * frac 3 10) + int 1) = None.
Proof.
  apply (@percentile_single_element (int 42) (Q2Qc (3 # 10)) [[int 42]] 0).
  - vm_compute. discriminate.
  - vm_compute. discriminate.
  - reflexivity.
Defined.
End PercentileProperties.

Section PercentileEndpoints.
Local Open Scope Qc_scope.

Lemma Qc_min_spec (a b : Qc) :
  (Qc_min a b = a \/ Qc_min a b = b) /\ Qc_min a b <= a /\ Qc_min a b <= b.
Proof.
  unfold Qc_min. destruct (Qclt_le_dec b a) as [Hlt|Hle].
  - repeat split; auto using Qcle_refl, Qclt_le_weak.
  - repeat split; auto using Qcle_refl.
Qed.


Lemma fold_min_spec (l : list Qc) (x : Qc) :
  In (fold_left Qc_min l x) (x :: l)
  /\ forall y, In y (x :: l) -> fold_left Qc_min l x <= y.
Proof.
  revert x. induction l as [|a l IH]; intros x; simpl.
  - split; [now left|]. intros y [->|[]]. apply Qcle_refl.
  - destruct (IH (Qc_min x a)) as [Hin Hle].
    destruct (Qc_min_spec x a) as (Hor & Hx & Ha).
    split.
    + destruct Hin as [Hin|Hin]; [|now right; right].
      rewrite <- Hin. destruct Hor as [->| ->]; [now left|now right; left].
    + intros y [->|[->|Hy]].
      * eapply Qcle_trans; [apply Hle; now left|assumption].
      * eapply Qcle_trans; [apply Hle; now left|assumption].
      * apply Hle. now right.
Qed.


(** The sorted permutation starts with the least sample. *)
Lemma sorted_head_is_min (S s : list Qc) :
  S <> [] -> Permutation S s -> StronglySorted Qcle s ->
  exists t, s = series_min S :: t.
Proof.
  intros Hne Hperm Hsorted.
  destruct S as [|x S]; [contradiction|].
  destruct (fold_min_spec S x) as [Hin Hle].
  change (fold_left Qc_min S x) with (series_min (x :: S)) in *.
  destruct s as [|a t]; [apply Permutation_sym, Permutation_nil in Hperm; discriminate|].
  exists t. f_equal. apply Qcle_antisym.
  - apply (Permutation_in _ Hperm) in Hin.
    inversion Hsorted as [|? ? _ Ha]; subst.
    destruct Hin as [<-|Hin]; [apply Qcle_refl|].
    rewrite Forall_forall in Ha. now apply Ha.
  - apply Hle. apply (Permutation_in _ (Permutation_sym Hperm)). now left.
Qed.



Local Open Scope js_scope.


End PercentileEndpoints.

(* ===================================================================== *)
(** ** Bollinger Bands *)
(* ===================================================================== *)

Section BollingerProperties.
Context {B : Builtins}.
Import Indicators _internal.











End BollingerProperties.



(* ===================================================================== *)
(** ** The randomized routines *)
(* ===================================================================== *)

Section GeneratorProperties.

Lemma for_loop_succ (S A : Type) (n : nat) (body : A -> State S A) (acc : A) (s : S) :
  for_loop (Datatypes.S n) body acc s
  = for_loop n body (fst (body acc s)) (snd (body acc s)).
Proof. simpl. unfold bind. now destruct (body acc s). Qed.





End GeneratorProperties.

Section StochasticsProperties.
Context {B : Builtins}.
Import Stochastics MathModels.

Lemma half_square (sigma : num) :
  (frac 1 2 * sigma * sigma)%js = (frac 1 2 * Math_pow sigma 2)%js.
Proof.
  destruct sigma as [|s|q]; [reflexivity|destruct s; reflexivity|].
  simpl. f_equal. symmetry. apply Qcmult_assoc.
Qed.

(** The loop of [gbmPath] appends one price per iteration, each the
    previous one times the step's factor. *)
Lemma gbm_loop (mu sigma dt : num) (n : nat) :
  forall (path : list num) (cur : num) (g : generator),
  exists tail,
    fst (fst (for_loop n (gbm_step mu sigma dt) (path, cur) g)) = path ++ tail
    /\ length tail = n
    /\ forall i, i < n ->
         nth i tail NaN
         = (nth i (cur :: tail) NaN
            * Math_exp ((mu - frac 1 2 * Math_pow sigma 2) * dt
                        + sigma * Math_sqrt dt
                          * (int 2 * Fin (draws g (cursor g + i)) - int 1)))%js.
Proof.
  induction n as [|n IH]; intros path cur g.
  - exists []. rewrite app_nil_r. repeat split. intros i Hi. lia.
  - rewrite for_loop_succ.
    unfold gbm_step at 2 3. unfold bind, Math_random, ret. cbn [fst snd].
    set (c1 := (cur * Math_exp _)%js).
    destruct (IH (path ++ [c1]) c1
                 {| draws := draws g; cursor := S (cursor g) |})
      as (tail & Hpath & Hlen & Hrec).
    exists (c1 :: tail). rewrite Hpath, <- app_assoc. split; [reflexivity|].
    split; [simpl; now rewrite Hlen|].
    intros [|i] Hi.
    + cbn [nth]. unfold c1.
      rewrite Nat.add_0_r, half_square, (nmul_comm (int 2)). reflexivity.
    + cbn [nth]. rewrite (Hrec i) by lia. cbn [draws cursor].
      now rewrite Nat.add_succ_r.
Qed.

(** C8. [gbmPath(S0, mu, sigma, T, steps)] returns [steps + 1] prices,
    the first is [S0], and each next price is the previous one times
    [exp((mu - 0.5 * sigma^2) * dt + sigma * sqrt(dt) * (2 * U_i - 1))]
    with [dt = T / steps] and [U_i] the i-th number drawn from the
    generator during the call. *)
Theorem gbmPath_recurrence (S0 mu sigma T : num) (steps : nat) (g : generator) :
  1 <= steps ->
  let dt := (T / of_nat steps)%js in
  let path := fst (gbmPath S0 mu sigma T steps g) in
  length path = steps + 1
  /\ nth 0 path NaN = S0
  /\ forall i, i < steps ->
       nth (S i) path NaN
       = (nth i path NaN
          * Math_exp ((mu - frac 1 2 * Math_pow sigma 2) * dt
                      + sigma * Math_sqrt dt
                        * (int 2 * Fin (draws g (cursor g + i)) - int 1)))%js.
Proof.
  intros _ dt path.
  destruct (gbm_loop mu sigma dt steps [S0] S0 g) as (tail & Hpath & Hlen & Hrec).
  assert (E : path = S0 :: tail).
  { unfold path, gbmPath, bind. fold dt.
    destruct (for_loop steps (gbm_step mu sigma dt) ([S0], S0) g) as [[p c] g'].
    exact Hpath. }
  rewrite E. split; [simpl; lia|]. split; [reflexivity|].
  intros i Hi. cbn [nth]. now apply Hrec.
Qed.
End StochasticsProperties.

Section ReproducibilityProperties.
Context {B : Builtins}.
Import Stochastics MathModels.




End ReproducibilityProperties.




(** The two consecutive runs, evaluated. *)
Lemma consecutive_runs_differ :
  let run := MathModels.runMonteCarlo (B := evaluation_builtins)
               (int 100) 1 (frac 1 2) 1 in
  (exists r, fst (run zero_then_half) = Return r
             /\ MathModels.averageEndPrice r = int 50)
  /\ (exists r, fst (run (snd (run zero_then_half))) = Return r
                /\ MathModels.averageEndPrice r = int 100).
Proof.
  split; eexists; (split; [reflexivity|]); num_eval.
Qed.

Lemma gbmPath_recurrence_witness :
  let g := {| draws := fun i => Q2Qc (Z.of_nat i # 4); cursor := 0 |} in
  let dt := (int 1 / of_nat 2)%js in
  let path := fst (Stochastics.gbmPath (B := evaluation_builtins)
                     (int 100) (frac 1 20) (frac 1 5) (int 1) 2 g) in
  length path = 2 + 1
  /\ nth 0 path NaN = int 100
  /\ forall i, i < 2 ->
       nth (S i) path NaN
       = (nth i path NaN
          * Math_exp (Builtins := evaluation_builtins)
              ((frac 1 20 - frac 1 2 * Math_pow (frac 1 5) 2) * dt
               + frac 1 5 * Math_sqrt (Builtins := evaluation_builtins) dt
                 * (int 2 * Fin (draws g (cursor g + i)) - int 1)))%js.
Proof.
  apply (@gbmPath_recurrence evaluation_builtins
           (int 100) (frac 1 20) (frac 1 5) (int 1) 2). lia.
Defined.

(* ===================================================================== *)
(** ** Concrete scenarios of the specification *)
(* ===================================================================== *)

(** Equal wealth has coefficient 0. *)
Lemma gini_equal_wealth :
  on_array Governance.calculateGini (map int [10; 10; 10; 10]%Z) = int 0.
Proof. num_eval. Qed.

(** All wealth in one hand out of four has coefficient 3/4. *)
Lemma gini_concentrated_wealth :
  on_array Governance.calculateGini (map int [0; 0; 0; 100]%Z) = frac 3 4.
Proof. num_eval. Qed.

(** A series that never falls has no loss: the guard returns 100. *)
Lemma rsi_rising_series :
  Indicators.rsi (map int [1; 2; 4; 7]%Z) 2 = int 100.
Proof. num_eval. Qed.

(** The median of four samples interpolates between the middle two. *)
Lemma percentile_median :
  on_array (fun arr => _getPercentile arr (frac 1 2)) (map int [3; 1; 2; 10]%Z)
  = Some (frac 5 2).
Proof.
  assert (E : forall a b : num, a = b -> Some a = Some b) by (intros; now subst).
  transitivity
    (Some (to_number
             (on_array (fun arr => _getPercentile arr (frac 1 2))
                       (map int [3; 1; 2; 10]%Z)))).
  - vm_compute. reflexivity.
  - apply E. num_eval.
Qed.

(** With no simulation at all the average is a reduce of an empty array,
    which throws. *)
Lemma runMonteCarlo_no_simulation (B : Builtins) (g : generator) :
  fst (MathModels.runMonteCarlo (int 100) 5 (frac 1 10) 0 g)
  = Throw (TypeError "Reduce of empty array with no initial value").
Proof. reflexivity. Qed.

(* ===================================================================== *)
(** * Properties of the further routines *)
(* ===================================================================== *)
(* ===================================================================== *)
(** ** Finite arithmetic *)
(* ===================================================================== *)

(** As [qc2q], with every coercion of a sum, product or quotient unfolded,
    in the goal and in the hypotheses. *)
Ltac qc_to_q :=
  unfold Qcle, Qclt, Qcminus, Qcdiv, Qcinv, Qcplus, Qcopp, Qcmult in *;
  repeat match goal with |- @eq Qc _ _ => apply Qc_is_canon end;
  repeat match goal with
         | H : @eq Qc (Q2Qc _) (Q2Qc _) |- _ => apply Q2Qc_eq_iff in H
         end;
  repeat setoid_rewrite this_Q2Qc;
  repeat match goal with H : _ |- _ => setoid_rewrite this_Q2Qc in H end;
  unfold inject_Z in *.

Section FiniteArithmetic.
Local Open Scope Qc_scope.

Lemma ndiv_Fin_nonzero (x y : Qc) :
  y <> Q2Qc 0 -> (Fin x / Fin y)%js = Fin (x / y).
Proof.
  intros H. unfold ndiv.
  destruct (y ?= Q2Qc 0) eqn:E; trivial.
  apply Qceq_alt in E. contradiction.
Qed.

Lemma nlt_Fin (a b : Qc) : nlt (Fin a) (Fin b) = true <-> a < b.
Proof.
  unfold nlt. simpl. rewrite Qclt_alt.
  destruct (a ?= b); split; congruence.
Qed.

Lemma nlt_Fin_false (a b : Qc) : nlt (Fin a) (Fin b) = false <-> b <= a.
Proof.
  split; intros H.
  - apply Qcnot_lt_le. intros Hlt. apply nlt_Fin in Hlt. congruence.
  - destruct (nlt (Fin a) (Fin b)) eqn:E; trivial.
    apply nlt_Fin in E. now apply Qcle_not_lt in H.
Qed.











End FiniteArithmetic.

(* ===================================================================== *)
(** ** [Market]: the single-value SMA and RSI *)
(* ===================================================================== *)

Section MarketProperties.
Import Market Indicators _internal.

(** X1: [getSMA] is the last value of [Indicators.sma]: for a period between 1
    and the length of the series the two routines agree on the most recent
    window. *)
Theorem getSMA_is_last_sma (data : list num) (period : nat) :
  1 <= period -> period <= length data ->
  exists out,
    sma data period = Some out
    /\ getSMA data period = Some (nth (length out - 1) out NaN).
Proof.
  intros Hp Hlen. eexists. split; [apply sma_some; exact Hlen|].
  unfold getSMA. destruct (Nat.ltb_spec (length data) period); [lia|].
  f_equal. rewrite length_map, length_seq.
  set (f := fun i => avg (slice data (i - period) i)).
  rewrite (nth_indep _ NaN (f 0)) by (rewrite length_map, length_seq; lia).
  rewrite map_nth, seq_nth by lia. unfold f, slice, slice_last.
  destruct period as [|k]; [lia|].
  replace (S k + (length data + 1 - S k - 1)) with (length data) by lia.
  replace (length data - (length data - S k)) with (S k) by lia.
  rewrite firstn_all2; [reflexivity|]. rewrite length_skipn. lia.
Qed.

Lemma getSMA_is_last_sma_witness :
  exists out,
    sma (map int [4; 8; 6]%Z) 2 = Some out
    /\ getSMA (map int [4; 8; 6]%Z) 2 = Some (nth (length out - 1) out NaN).
Proof.
  apply (@getSMA_is_last_sma (map int [4; 8; 6]%Z) 2); simpl; lia.
Defined.

(** X2: with a period of 0 the two routines part: [slice(-0)] is the whole
    array, so [getSMA] returns the mean of the whole series, while every
    value of [Indicators.sma] is the mean of an empty window, NaN. *)
Theorem getSMA_period_zero (data : list num) :
  getSMA data 0 = Some (avg data)
  /\ sma data 0 = Some (repeat NaN (length data + 1)).
Proof.
  split; [reflexivity|].
  rewrite sma_some by lia. f_equal.
  rewrite Nat.sub_0_r.
  generalize (length data + 1) as n. intros n.
  assert (E : forall k, map (fun i => avg (slice data (i - 0) i)) (seq k n) = repeat NaN n).
  { induction n as [|n IH]; intros k; [reflexivity|].
    cbn [seq map repeat]. rewrite IH. f_equal.
    unfold avg, slice. now rewrite Nat.sub_0_r, Nat.sub_diag. }
  apply E.
Qed.



End MarketProperties.

(* ===================================================================== *)
(** ** Gini coefficient: range *)
(* ===================================================================== *)

Section GiniRange.
Import Governance.
Local Open Scope Qc_scope.









End GiniRange.

(* ===================================================================== *)
(** ** Linear regression on a line *)
(* ===================================================================== *)

Section RegressionOnLine.
Import Forecasting.
Local Open Scope Qc_scope.






End RegressionOnLine.

(* ===================================================================== *)
(** ** [Tokenomics]: linear vesting *)
(* ===================================================================== *)

Section VestingProperties.
Import Tokenomics.
Local Open Scope Qc_scope.







End VestingProperties.

(* ===================================================================== *)
(** ** [Liquidity]: constant-product swap *)
(* ===================================================================== *)

Section SwapProperties.
Context {F : Formatting}.
Import Liquidity.
Local Open Scope Qc_scope.


End SwapProperties.


(* ===================================================================== *)
(** ** [Macro]: progressive tax *)
(* ===================================================================== *)

Section TaxProperties.
Context {F : Formatting}.
Import Macro.
Local Open Scope Qc_scope.

Lemma Math_min_pair (x y : Qc) : Math_min [Fin x; Fin y] = Fin (Qc_min x y).
Proof.
  unfold Math_min, Math_min2, Qc_min. simpl.
  destruct (Qclt_le_dec y x) as [Hlt|Hle].
  - now rewrite (proj1 (Qcgt_alt x y) Hlt).
  - destruct (x ?= y) eqn:E; trivial.
    apply Qcgt_alt in E. now apply Qcle_not_lt in Hle.
Qed.

Lemma Math_max_pair (x y : Qc) : Math_max [Fin x; Fin y] = Fin (Qc_max x y).
Proof.
  unfold Math_max, Math_max2, Qc_max. simpl.
  destruct (Qclt_le_dec x y) as [Hlt|Hle].
  - now rewrite (proj1 (Qclt_alt x y) Hlt).
  - destruct (x ?= y) eqn:E; trivial.
    apply Qclt_alt in E. now apply Qcle_not_lt in Hle.
Qed.

(** X21: an income that is not positive pays no tax, whatever the brackets. *)
Theorem calculateBrackets_no_income (income : Qc) (brackets : list (num * num)) :
  income <= 0 ->
  totalTax (calculateBrackets (Fin income) brackets) = int 0.
Proof.
  intros H.
  assert (Htest : ngt (Fin income) (int 0) = false).
  { unfold ngt. now apply nlt_Fin_false. }
  assert (Hloop : bracket_loop (Fin income) brackets = (int 0, int 0)).
  { unfold bracket_loop. apply fold_left_fixed.
    intros [limit rate] _. now rewrite Htest. }
  unfold calculateBrackets. rewrite Hloop, Htest. reflexivity.
Qed.

(** One iteration of the bracket loop on finite values. *)
Lemma bracket_step (income t L limit rate : Qc) :
  (if ngt (Fin income) (Fin L)
   then ((Fin t + Math_min [(Fin income - Fin L)%js; (Fin limit - Fin L)%js]
                  * Fin rate)%js, Fin limit)
   else (Fin t, Fin L))
  = if Qclt_le_dec L income
    then (Fin (t + Qc_min (income - L) (limit - L) * rate), Fin limit)
    else (Fin t, Fin L).
Proof.
  destruct (Qclt_le_dec L income) as [Hlt|Hle].
  - assert (E : ngt (Fin income) (Fin L) = true) by (unfold ngt; now apply nlt_Fin).
    rewrite E. cbn [nsub nadd nopp]. now rewrite Math_min_pair.
  - assert (E : ngt (Fin income) (Fin L) = false)
      by (unfold ngt; now apply nlt_Fin_false).
    now rewrite E.
Qed.

(** The default schedule, bracket by bracket. *)
Lemma calculateBrackets_schedule (income : Qc) :
  exists t,
    totalTax (calculateBrackets (Fin income) default_brackets) = Fin t
    /\ (income <= 0 -> t = 0)
    /\ (0 < income -> income <= Q2Qc 10000 -> t = income * Q2Qc (1 # 20))
    /\ (Q2Qc 10000 < income -> income <= Q2Qc 50000 ->
        t = Q2Qc 500 + (income - Q2Qc 10000) * Q2Qc (1 # 10))
    /\ (Q2Qc 50000 < income -> income <= Q2Qc 100000 ->
        t = Q2Qc 4500 + (income - Q2Qc 50000) * Q2Qc (1 # 5))
    /\ (Q2Qc 100000 < income ->
        t = Q2Qc 14500 + (income - Q2Qc 100000) * Q2Qc (3 # 10)).
Proof.
  unfold calculateBrackets, bracket_loop, default_brackets, int, frac.
  cbn [fold_left].
  rewrite (bracket_step income _ _ _ _).
  destruct (Qclt_le_dec (Q2Qc (inject_Z 0)) income) as [H0|H0];
    rewrite (bracket_step income _ _ _ _);
    destruct (Qclt_le_dec _ income) as [H1|H1];
    rewrite (bracket_step income _ _ _ _);
    destruct (Qclt_le_dec _ income) as [H2|H2];
    match goal with
    | |- context [ngt (Fin income) (Fin ?L)] =>
        destruct (ngt (Fin income) (Fin L)) eqn:H3;
        [unfold ngt in H3; apply nlt_Fin in H3
        |unfold ngt in H3; apply nlt_Fin_false in H3]
    end;
    cbn [totalTax nadd nsub nmul nopp];
    (eexists; split; [reflexivity|]);
    unfold Qc_min;
    repeat match goal with
           | |- context [Qclt_le_dec ?a ?b] => destruct (Qclt_le_dec a b)
           end;
    repeat split; intros; try (exfalso; qc_to_q; lra); qc_to_q; lra.
Qed.

(** X22: with the default brackets the tax is the progressive schedule: 5% up
    to 10000, 10% from there to 50000, 20% from there to 100000 and 30%
    above. *)
Theorem calculateBrackets_default (income : Qc) :
  exists t,
    totalTax (calculateBrackets (Fin income) default_brackets) = Fin t
    /\ (income <= 0 -> t = 0)
    /\ (0 < income -> income <= Q2Qc 10000 -> t = income * Q2Qc (1 # 20))
    /\ (Q2Qc 10000 < income -> income <= Q2Qc 50000 ->
        t = Q2Qc 500 + (income - Q2Qc 10000) * Q2Qc (1 # 10))
    /\ (Q2Qc 50000 < income -> income <= Q2Qc 100000 ->
        t = Q2Qc 4500 + (income - Q2Qc 50000) * Q2Qc (1 # 5))
    /\ (Q2Qc 100000 < income ->
        t = Q2Qc 14500 + (income - Q2Qc 100000) * Q2Qc (3 # 10)).
Proof. exact (calculateBrackets_schedule income). Qed.

End TaxProperties.


Lemma calculateBrackets_no_income_witness :
  Macro.totalTax (Macro.calculateBrackets (F := evaluation_formatting)
                    (Fin (Q2Qc (-5))) Macro.default_brackets) = int 0.
Proof.
  apply (@calculateBrackets_no_income evaluation_formatting
           (Q2Qc (-5)) Macro.default_brackets).
  vm_compute. discriminate.
Defined.

(* ===================================================================== *)
(** ** [GameTheory]: second-price auction *)
(* ===================================================================== *)

Section SortByProperties.
Variable A : Type.
Variable cmp : A -> A -> num.
(** [P] are the elements the comparator orders; [R x y]: [x] may stand
    before [y]. *)
Variable P : A -> Prop.
Variable R : A -> A -> Prop.
Hypothesis R_swap : forall x y, P x -> P y -> ngt (cmp x y) (int 0) = true -> R y x.
Hypothesis R_keep : forall x y, P x -> P y -> ngt (cmp x y) (int 0) = false -> R x y.
Hypothesis R_trans : forall x y z, P x -> P y -> P z -> R x y -> R y z -> R x z.

Lemma sort_insert_by_sorted (x : A) (l : list A) :
  P x -> Forall P l -> StronglySorted R l ->
  Permutation (x :: l) (sort_insert_by cmp x l)
  /\ StronglySorted R (sort_insert_by cmp x l).
Proof.
  intros Hx HP Hs. induction Hs as [|y l Hs IH Hy].
  - split; [apply Permutation_refl|]. repeat constructor.
  - inversion HP as [|? ? Py Pl]; subst. simpl.
    destruct (ngt (cmp x y) (int 0)) eqn:E.
    + destruct (IH Pl) as [Hperm Hsorted]. split.
      * rewrite perm_swap. now constructor.
      * constructor; [assumption|].
        apply (Permutation_Forall Hperm). constructor; [|assumption].
        now apply R_swap.
    + split; [apply Permutation_refl|].
      constructor; [now constructor|].
      constructor; [now apply R_keep|].
      rewrite Forall_forall in *. intros z Hz.
      apply (R_trans Hx Py (Pl z Hz)); [now apply R_keep|now apply Hy].
Qed.

Lemma Array_sort_by_sorted (l : list A) :
  Forall P l ->
  Permutation l (Array_sort_by cmp l) /\ StronglySorted R (Array_sort_by cmp l).
Proof.
  induction 1 as [|x l Hx Hl IH].
  - split; constructor.
  - destruct IH as [Hperm Hsorted]. simpl.
    destruct (@sort_insert_by_sorted x (Array_sort_by cmp l) Hx) as [Hp Hs];
      [now apply (Permutation_Forall Hperm)|assumption|].
    split; [|assumption].
    rewrite <- Hp. now constructor.
Qed.
End SortByProperties.

Section AuctionProperties.
Import GameTheory.
Local Open Scope Qc_scope.

Lemma descending_sorted (bids : list Bid) :
  Forall finite_bid bids ->
  Permutation bids (Array_sort_by (fun a b => (amount b - amount a)%js) bids)
  /\ StronglySorted outbids (Array_sort_by (fun a b => (amount b - amount a)%js) bids).
Proof.
  apply Array_sort_by_sorted; unfold finite_bid, outbids.
  - intros x y [qx Hx] [qy Hy]. rewrite Hx, Hy.
    change (Fin qy - Fin qx)%js with (ascending (Fin qy) (Fin qx)).
    intros H. apply ascending_gt_0 in H. apply nle_Fin. now apply Qclt_le_weak.
  - intros x y [qx Hx] [qy Hy]. rewrite Hx, Hy.
    change (Fin qy - Fin qx)%js with (ascending (Fin qy) (Fin qx)).
    intros H. apply nle_Fin. apply Qcnot_lt_le. intros Hlt.
    apply ascending_gt_0 in Hlt. congruence.
  - intros x y z [qx Hx] [qy Hy] [qz Hz]. rewrite Hx, Hy, Hz.
    rewrite !nle_Fin. intros H1 H2. eapply Qcle_trans; eassumption.
Qed.

(** X24: with at least two bids of finite amounts, the call sorts the caller's
    array in place, highest bid first: afterwards the array is a
    permutation of what it was, in descending order of amount; the winner
    is its first bidder, the price is the amount of its second bid, which
    no remaining bid exceeds, and the savings are not negative. *)
Theorem calculateVickreyWinner_second_price (bids : list Bid) :
  (2 <= length bids)%nat -> Forall finite_bid bids ->
  exists first second rest p1 p2,
    calculateVickreyWinner bids
    = (Return (Some {| winner := user first;
                       priceToPay := Fin p2;
                       savings := Fin (p1 - p2) |}),
       first :: second :: rest)
    /\ Permutation bids (first :: second :: rest)
    /\ StronglySorted outbids (first :: second :: rest)
    /\ amount first = Fin p1 /\ amount second = Fin p2
    /\ 0 <= p1 - p2
    /\ Forall (fun b => nle (amount b) (Fin p2) = true) rest.
Proof.
  intros Hlen Hfin.
  destruct (descending_sorted Hfin) as [Hperm Hsorted].
  unfold calculateVickreyWinner.
  destruct (Nat.ltb_spec (length bids) 2); [lia|].
  pose proof (Permutation_length Hperm) as Hl.
  destruct (Array_sort_by _ bids) as [|first [|second rest]];
    [simpl in Hl; lia|simpl in Hl; lia|].
  assert (Hfin' := Permutation_Forall Hperm Hfin).
  inversion Hfin' as [|? ? [p1 Hp1] Hfin'']; subst.
  inversion Hfin'' as [|? ? [p2 Hp2] _]; subst.
  exists first, second, rest, p1, p2.
  inversion Hsorted as [|? ? Hs2 H1]; subst.
  inversion Hs2 as [|? ? _ H2]; subst.
  inversion H1 as [|? ? H12 _]; subst.
  unfold outbids in H12, H2. rewrite Hp1, Hp2 in H12. apply nle_Fin in H12.
  rewrite Hp1, Hp2. repeat split; try assumption.
  - clear -H12. qc_to_q. lra.
  - eapply Forall_impl; [|exact H2]. intros b Hb. now rewrite Hp2 in Hb.
Qed.

Lemma calculateVickreyWinner_second_price_witness :
  exists first second rest p1 p2,
    calculateVickreyWinner
      [ {| user := "ann"; amount := int 5 |};
        {| user := "bob"; amount := int 9 |};
        {| user := "cy"; amount := int 7 |} ]
    = (Return (Some {| winner := user first;
                       priceToPay := Fin p2;
                       savings := Fin (p1 - p2) |}),
       first :: second :: rest)
    /\ Permutation
         [ {| user := "ann"; amount := int 5 |};
           {| user := "bob"; amount := int 9 |};
           {| user := "cy"; amount := int 7 |} ]
         (first :: second :: rest)
    /\ StronglySorted outbids (first :: second :: rest)
    /\ amount first = Fin p1 /\ amount second = Fin p2
    /\ 0 <= p1 - p2
    /\ Forall (fun b => nle (amount b) (Fin p2) = true) rest.
Proof.
  apply (@calculateVickreyWinner_second_price
           [ {| user := "ann"; amount := int 5 |};
             {| user := "bob"; amount := int 9 |};
             {| user := "cy"; amount := int 7 |} ]).
  - simpl. lia.
  - repeat constructor; eexists; reflexivity.
Defined.

(** With fewer than two bids there is no auction: the call returns [null]
    and leaves the array as it is. *)
Lemma calculateVickreyWinner_too_few (bids : list Bid) :
  (length bids < 2)%nat -> calculateVickreyWinner bids = (Return None, bids).
Proof.
  intros H. unfold calculateVickreyWinner.
  destruct (Nat.ltb_spec (length bids) 2); [reflexivity|lia].
Qed.
End AuctionProperties.

(* ===================================================================== *)
(** ** Guards and floors: [clamp], velocity, base fee, triangle arbitrage *)
(* ===================================================================== *)

Section GuardProperties.
Local Open Scope Qc_scope.

(** X4: [clamp] on finite numbers never exceeds [max]; when [min <= max] the
    result lies between them, and a value already between them is returned
    unchanged. *)
Theorem clamp_range (val min max : Qc) :
  exists r,
    clamp (Fin val) (Fin min) (Fin max) = Fin r
    /\ r <= max
    /\ (min <= max -> min <= r)
    /\ (min <= val -> val <= max -> r = val).
Proof.
  unfold clamp. rewrite Math_max_pair, Math_min_pair.
  eexists. split; [reflexivity|].
  unfold Qc_min, Qc_max.
  destruct (Qclt_le_dec val min); destruct (Qclt_le_dec max _);
    repeat split; intros; try apply Qcle_refl; try assumption;
    try (now apply Qclt_le_weak);
    try (apply Qcle_antisym; [now apply Qclt_le_weak|assumption]).
  - exfalso. eapply Qclt_not_le; [exact q|assumption].
  - exfalso. eapply Qclt_not_le; [exact q|assumption].
Qed.


Import Scarcity.





End GuardProperties.

Section TriangleProperties.
Context {F : Formatting}.
Import NetworkEconomy.
Local Open Scope Qc_scope.

End TriangleProperties.


(* ===================================================================== *)
(** ** Constant series: Sharpe ratio, outlier filter, equal wealth *)
(* ===================================================================== *)

Section ConstantSeries.
Local Open Scope Qc_scope.





Section WithBuiltins.
Context {B : Builtins}.



(** An empty history has nothing to reduce: [cleanData] throws. *)
Lemma cleanData_empty (sigmaThreshold : num) :
  Validator.cleanData [] sigmaThreshold
  = Throw (TypeError "Reduce of empty array with no initial value").
Proof. reflexivity. Qed.
End WithBuiltins.
End ConstantSeries.




(* ===================================================================== *)
(** ** Equal wealth *)
(* ===================================================================== *)

Section EqualWealth.
Import Governance.
Local Open Scope Qc_scope.





End EqualWealth.

(* ===================================================================== *)
(** ** Percentile: range and empty input *)
(* ===================================================================== *)

Section PercentileRange.
Local Open Scope Qc_scope.

Lemma element_empty (i : num) : element [] i = None.
Proof.
  destruct i as [| |q]; trivial. unfold element.
  destruct (_ && _); [|reflexivity]. now destruct (Z.to_nat _).
Qed.

(** X9: on an empty array the percentile is [undefined] for every [p]: both
    reads of the sorted copy miss, and nothing is thrown. *)
Theorem percentile_empty (p : num) (h : store) (arr : ref) :
  nth_error h arr = Some [] ->
  fst (_getPercentile arr p h) = None.
Proof.
  intros Harr. apply nth_error_nth_store in Harr.
  rewrite _getPercentile_run, Harr.
  change (Array_sort ascending []) with (@nil num).
  now rewrite !element_empty.
Qed.

Lemma percentile_empty_witness :
  fst (_getPercentile 0%nat (frac 1 2) [[]]) = None.
Proof.
  apply (@percentile_empty (frac 1 2) [[]] 0%nat). reflexivity.
Defined.




End PercentileRange.

(* ===================================================================== *)
(** ** [Risk]: value at risk *)
(* ===================================================================== *)

Section VaRProperties.
Import Risk.
Local Open Scope Qc_scope.

(** X6: a history of fewer than two points has no return: the read of the
    empty [returns] array is [undefined] and the result is 0, whatever the
    confidence. *)
Theorem calculateVaR_short_history (history : list num) (confidence : num) :
  (length history < 2)%nat -> calculateVaR history confidence = int 0.
Proof.
  intros H. unfold calculateVaR, relative_changes.
  replace (length history - 1)%nat with 0%nat by lia.
  change (Array_sort ascending (map _ (seq 1 0))) with (@nil num).
  now rewrite element_empty.
Qed.

Lemma calculateVaR_short_history_witness :
  calculateVaR [int 100] (frac 19 20) = int 0.
Proof.
  apply (@calculateVaR_short_history [int 100] (frac 19 20)). simpl. lia.
Defined.

(** The relative changes of a finite history without a zero price are
    finite. *)
Lemma relative_changes_finite (H : list Qc) :
  Forall (fun x => x <> 0) H ->
  relative_changes (map Fin H)
  = map Fin (map (fun i => (nth i H 0 - nth (i - 1) H 0) / nth (i - 1) H 0)
                 (seq 1 (length H - 1))).
Proof.
  intros Hnz. unfold relative_changes. rewrite length_map, map_map.
  apply map_ext_in. intros i Hi. apply in_seq in Hi.
  rewrite !get_finite by lia. cbn [nsub nadd nopp].
  rewrite ndiv_Fin_nonzero; [reflexivity|].
  rewrite Forall_forall in Hnz. apply Hnz. apply nth_In. lia.
Qed.

(** X7: at confidence 1 the value at risk is the worst historical return: for
    a finite history of at least two prices, none of them zero, the result
    is the least of the relative changes between consecutive prices. *)
Theorem calculateVaR_worst_return (H : list Qc) :
  (2 <= length H)%nat -> Forall (fun x => x <> 0) H ->
  calculateVaR (map Fin H) (int 1)
  = Fin (series_min
           (map (fun i => (nth i H 0 - nth (i - 1) H 0) / nth (i - 1) H 0)
                (seq 1 (length H - 1)))).
Proof.
  intros Hlen Hnz. unfold calculateVaR.
  rewrite (relative_changes_finite Hnz).
  set (rs := map _ (seq 1 (length H - 1))).
  assert (Hne : rs <> []).
  { unfold rs. destruct (length H - 1)%nat eqn:E; [lia|]. discriminate. }
  destruct (Array_sort_finite rs) as (s & -> & Hperm & Hsorted).
  destruct (sorted_head_is_min Hne Hperm Hsorted) as (t & ->).
  assert (Hidx : Math_floor ((int 1 - int 1)
                             * of_nat (length (map Fin (series_min rs :: t))))%js
                 = of_nat 0).
  { change (of_nat (length (map Fin (series_min rs :: t))))
      with (Fin (Qc_of_nat (length (map Fin (series_min rs :: t))))).
    unfold int. cbn [nsub nadd nopp nmul].
    replace ((Q2Qc (inject_Z 1) + - Q2Qc (inject_Z 1)) * _) with 0 by ring.
    reflexivity. }
  rewrite Hidx, element_of_nat. cbn [map nth_error].
  unfold or_else. destruct (series_min rs ?= Q2Qc 0) eqn:E; trivial.
  apply Qceq_alt in E. now rewrite E.
Qed.

Lemma calculateVaR_worst_return_witness :
  calculateVaR (map Fin [Q2Qc 100; Q2Qc 110; Q2Qc 99])%Qc (int 1)
  = Fin (series_min
           (map (fun i => (nth i [Q2Qc 100; Q2Qc 110; Q2Qc 99] 0
                           - nth (i - 1) [Q2Qc 100; Q2Qc 110; Q2Qc 99] 0)
                          / nth (i - 1) [Q2Qc 100; Q2Qc 110; Q2Qc 99] 0)
                (seq 1 (length [Q2Qc 100; Q2Qc 110; Q2Qc 99] - 1)))).
Proof.
  apply (@calculateVaR_worst_return [Q2Qc 100; Q2Qc 110; Q2Qc 99]).
  - simpl. lia.
  - repeat constructor; intros E; discriminate E.
Defined.
End VaRProperties.

(* ===================================================================== *)
(** ** Monte Carlo without volatility *)
(* ===================================================================== *)

Section CalmMarket.
Context {B : Builtins}.
Import MathModels.
Local Open Scope Qc_scope.





End CalmMarket.


(* ===================================================================== *)
(** ** [Security]: when mining halts *)
(* ===================================================================== *)

Section MiningProperties.
Context {B : Builtins}.
Import Security.

Lemma hex_digit_leading (n : Z) :
  (0 < n < 16)%Z -> hex_digit n <> "0"%char.
Proof.
  intros [Hlo Hhi].
  assert (Hcases : (n = 1 \/ n = 2 \/ n = 3 \/ n = 4 \/ n = 5 \/ n = 6 \/ n = 7
                    \/ n = 8 \/ n = 9 \/ n = 10 \/ n = 11 \/ n = 12 \/ n = 13
                    \/ n = 14 \/ n = 15)%Z) by lia.
  repeat (destruct Hcases as [-> | Hcases]; [discriminate|]).
  subst n. discriminate.
Qed.

(** The digits of a positive number start with a digit other than 0. *)
Lemma hex_digits_leading (fuel : nat) :
  forall (n : Z) (rest : string),
    (0 < n < 2 ^ Z.of_nat fuel)%Z ->
    exists c s, hex_digits fuel n rest = String c s /\ c <> "0"%char.
Proof.
  induction fuel as [|fuel IH]; intros n rest [Hlo Hhi].
  - simpl in Hhi. lia.
  - cbn [hex_digits]. destruct (n <? 16)%Z eqn:E.
    + apply Z.ltb_lt in E. exists (hex_digit n), rest. split; [reflexivity|].
      apply hex_digit_leading. lia.
    + apply Z.ltb_ge in E. apply IH. split.
      * apply Z.div_str_pos. lia.
      * rewrite Nat2Z.inj_succ, Z.pow_succ_r in Hhi by lia.
        apply Z.div_lt_upper_bound; lia.
Qed.

Lemma toString16_leading (n : Z) :
  (0 <= n)%Z ->
  toString16 n = "0"%string
  \/ exists c s, toString16 n = String c s /\ c <> "0"%char.
Proof.
  intros Hn. destruct (Z.eq_dec n 0) as [-> | Hnz].
  - left. reflexivity.
  - right. apply hex_digits_leading. split; [lia|].
    rewrite Nat2Z.inj_succ, Z2Nat.id by apply Z.log2_nonneg.
    apply Z.log2_spec. lia.
Qed.

Lemma String_repeat_two (k : nat) :
  2 <= k -> exists t, String_repeat "0"%char k = String "0"%char (String "0"%char t).
Proof.
  intros Hk. destruct k as [|[|k]]; [lia|lia|]. now exists (String_repeat "0"%char k).
Qed.

(** A hash never starts with two zeros. *)
Lemma getHash_target_missed (str : string) (k : nat) :
  2 <= k -> prefix (String_repeat "0"%char k) (getHash str) = false.
Proof.
  intros Hk. destruct (String_repeat_two Hk) as (t & ->).
  unfold getHash.
  destruct (toString16_leading (Z.abs_nonneg (getHash_loop str 0)))
    as [-> | (c & s & -> & Hc)].
  - reflexivity.
  - cbn [prefix]. destruct (Ascii.ascii_dec "0"%char c) as [E|_]; [|reflexivity].
    now symmetry in E.
Qed.

(** X17: with a difficulty of two or more the mining loop never stops: a
    hash is a number printed in base 16, so it is ["0"] or starts with a
    digit other than 0, and never starts with ["00"]; however many rounds
    are allowed, and whatever the data, no result is produced. *)
Theorem simulateMining_never_halts (fuel : nat) (data : string)
    (difficulty : nat) (c : clock) :
  2 <= difficulty -> fst (simulateMining fuel data difficulty c) = None.
Proof.
  intros Hd. unfold simulateMining. cbv zeta.
  assert (Hloop : forall fuel nonce hash,
             prefix (String_repeat "0"%char difficulty) hash = false ->
             mining_loop fuel data (String_repeat "0"%char difficulty) nonce hash
             = None).
  { clear fuel. induction fuel as [|fuel IH]; intros nonce hash Hmiss.
    - cbn [mining_loop]. now rewrite Hmiss.
    - cbn [mining_loop]. rewrite Hmiss. apply IH.
      now apply getHash_target_missed. }
  unfold bind at 1, Date_now at 1.
  rewrite Hloop; [reflexivity|].
  destruct (String_repeat_two Hd) as (t & ->). reflexivity.
Qed.

(** X18: with difficulty 0 the target is the empty string, which every
    string starts with: the loop body never runs, and the result has nonce
    0 and the empty hash, with the time between the two clock readings. *)
Theorem simulateMining_no_difficulty (fuel : nat) (data : string) (c : clock) :
  fst (simulateMining fuel data 0 c)
  = Some {| nonce := 0;
            hash := EmptyString;
            timeTaken :=
              (Number_toString (readings c (S (reads c)) - readings c (reads c))%js
               ++ "ms")%string |}.
Proof.
  unfold simulateMining. cbv zeta. destruct fuel; reflexivity.
Qed.

Lemma to_int32_range (z : Z) :
  (- 2 ^ 31 <= to_int32 z < 2 ^ 31)%Z.
Proof.
  unfold to_int32.
  pose proof (Z.mod_pos_bound (z + 2 ^ 31) (2 ^ 32) ltac:(lia)). lia.
Qed.

Lemma getHash_loop_range (str : string) :
  forall h, (- 2 ^ 31 <= h < 2 ^ 31)%Z ->
            (- 2 ^ 31 <= getHash_loop str h < 2 ^ 31)%Z.
Proof.
  induction str as [|ch str IH]; intros h Hh; [exact Hh|].
  cbn [getHash_loop]. apply IH, to_int32_range.
Qed.

Lemma hex_digits_length (fuel : nat) :
  forall (k : nat) (n : Z) (rest : string),
    1 <= k -> (0 <= n < 16 ^ Z.of_nat k)%Z ->
    String.length (hex_digits fuel n rest) <= k + String.length rest.
Proof.
  induction fuel as [|fuel IH]; intros k n rest Hk [Hlo Hhi].
  - cbn [hex_digits]. lia.
  - cbn [hex_digits]. destruct (n <? 16)%Z eqn:E.
    + cbn [String.length]. lia.
    + apply Z.ltb_ge in E. destruct k as [|k]; [lia|].
      destruct k as [|k]; [simpl in Hhi; lia|].
      specialize (IH (S k) (n / 16)%Z (String (hex_digit (n mod 16)) rest)).
      cbn [String.length] in IH.
      assert (0 <= n / 16 < 16 ^ Z.of_nat (S k))%Z.
      { split; [apply Z.div_pos; lia|].
        rewrite (Nat2Z.inj_succ (S k)), Z.pow_succ_r in Hhi by lia.
        apply Z.div_lt_upper_bound; lia. }
      specialize (IH ltac:(lia) H). lia.
Qed.

(** X19: the running value of the hash stays a signed 32-bit integer, so a
    hash has at most eight digits, whatever the string. *)
Theorem getHash_at_most_eight_digits (str : string) :
  String.length (getHash str) <= 8.
Proof.
  unfold getHash, toString16.
  pose proof (@getHash_loop_range str 0%Z ltac:(lia)) as Hr.
  change 8 with (8 + String.length EmptyString).
  apply hex_digits_length; [lia|]. change (16 ^ Z.of_nat 8)%Z with (2 ^ 32)%Z. lia.
Qed.
End MiningProperties.

Lemma simulateMining_never_halts_witness :
  fst (Security.simulateMining (B := evaluation_builtins) 5 "abc" 2 counting_clock)
  = None.
Proof.
  apply (@simulateMining_never_halts evaluation_builtins 5 "abc"%string 2 counting_clock).
  lia.
Defined.
